(** * EJTP router and identity deserialisation: a shallow embedding

    Embedding of [ejtp/router.py] (class [Router], function [rtuple]) and of
    [deserialize] from [ejtp/identity/core.py], with the properties the
    specification states about them.

    Conventions.
    - Python values that can occur in an address are the inductive [PyVal].
      The scalars are [None], integers, strings and opaque objects compared
      by identity; on this fragment Python's [==] is structural equality.
    - A Python [dict] that is iterated over ([Router._jacks],
      [Router._clients]) is an association list: the list order is the
      iteration order, which Python leaves unspecified, so statements are
      quantified over every order.  The dict of identity properties is only
      looked up, and is a [gmap string PyVal].
    - A method of [Router] is a function from the router to an [Outcome]: the
      router afterwards, the calls made on collaborators and the console
      output, in order, and either a value or the exception raised. *)

From Stdlib Require Import ZArith List Bool.
From stdpp Require Import base decidable option list strings gmap.
Import ListNotations.

Open Scope string_scope.
Open Scope list_scope.

(** ** Python values *)

#[local] Unset Elimination Schemes.

Inductive PyVal : Type :=
| VNone
| VInt (n : Z)
| VStr (s : string)
| VObj (id : nat)
| VList (items : list PyVal)
| VTuple (items : list PyVal).

#[local] Set Elimination Schemes.

(** Python's [==] on [PyVal]: lists equal lists and tuples equal tuples,
    component by component; a list never equals a tuple. *)
Fixpoint py_eq (a b : PyVal) : bool :=
  let fix all2 (xs ys : list PyVal) : bool :=
    match xs, ys with
    | [], [] => true
    | x :: xs', y :: ys' => py_eq x y && all2 xs' ys'
    | _, _ => false
    end in
  match a, b with
  | VNone, VNone => true
  | VInt m, VInt n => Z.eqb m n
  | VStr s, VStr t => String.eqb s t
  | VObj i, VObj j => Nat.eqb i j
  | VList xs, VList ys => all2 xs ys
  | VTuple xs, VTuple ys => all2 xs ys
  | _, _ => false
  end.

(** ** [rtuple] (router.py, lines 122-127) *)

Fixpoint rtuple (obj : PyVal) : PyVal :=
  match obj with
  | VList items => VTuple (List.map rtuple items)
  | VTuple items => VTuple (List.map rtuple items)
  | _ => obj
  end.

(** [type(obj) in (list, tuple)] *)
Definition is_seq (obj : PyVal) : bool :=
  match obj with
  | VList _ | VTuple _ => true
  | _ => false
  end.

(** Two values have the same structure when they differ at most in which
    of their sequences are lists and which are tuples. *)
Fixpoint same_structure (a b : PyVal) : bool :=
  let fix all2 (xs ys : list PyVal) : bool :=
    match xs, ys with
    | [], [] => true
    | x :: xs', y :: ys' => same_structure x y && all2 xs' ys'
    | _, _ => false
    end in
  match a, b with
  | (VList xs | VTuple xs), (VList ys | VTuple ys) => all2 xs ys
  | VNone, VNone => true
  | VInt m, VInt n => Z.eqb m n
  | VStr s, VStr t => String.eqb s t
  | VObj i, VObj j => Nat.eqb i j
  | _, _ => false
  end.

(** The all-lists and all-tuples forms of a value. *)
Fixpoint as_lists (obj : PyVal) : PyVal :=
  match obj with
  | VList items | VTuple items => VList (List.map as_lists items)
  | _ => obj
  end.

Fixpoint as_tuples (obj : PyVal) : PyVal :=
  match obj with
  | VList items | VTuple items => VTuple (List.map as_tuples items)
  | _ => obj
  end.

(** No list occurs in the value: every sequence in it is a tuple. *)
Fixpoint no_lists (obj : PyVal) : bool :=
  match obj with
  | VList _ => false
  | VTuple items => forallb no_lists items
  | _ => true
  end.

(** The value supports [obj[:n]]. *)
Definition sliceable (obj : PyVal) : bool :=
  match obj with
  | VList _ | VTuple _ | VStr _ => true
  | _ => false
  end.

(** The value in a boolean context ([not obj], [if obj]). *)
Definition truthy (obj : PyVal) : bool :=
  match obj with
  | VNone => false
  | VInt n => negb (Z.eqb n 0)
  | VStr s => negb (String.eqb s "")
  | VObj _ => true
  | VList items | VTuple items => match items with [] => false | _ => true end
  end.

(** ** Exceptions and fallible expressions *)

Inductive Exn : Type :=
| IndexError
| KeyError
| TypeError
| ValueError (msg : string).

Inductive Result (A : Type) : Type :=
| Ok (a : A)
| Raise (e : Exn).

Arguments Ok {A} a.
Arguments Raise {A} e.

#[global] Instance Result_ret : MRet Result := fun A a => Ok a.

#[global] Instance Result_bind : MBind Result := fun A B f m =>
  match m with
  | Ok a => f a
  | Raise e => Raise e
  end.

(** ** Sequence operations used on addresses *)

(** [obj[:n]]: lists, tuples and strings can be sliced, and a slice never
    fails on a short sequence; anything else raises [TypeError]. *)
Definition getslice (obj : PyVal) (n : nat) : Result PyVal :=
  match obj with
  | VList items => Ok (VList (firstn n items))
  | VTuple items => Ok (VTuple (firstn n items))
  | VStr s => Ok (VStr (String.substring 0 n s))
  | _ => Raise TypeError
  end.

(** [obj[0]] *)
Definition getitem0 (obj : PyVal) : Result PyVal :=
  match obj with
  | VList (x :: _) | VTuple (x :: _) => Ok x
  | VList [] | VTuple [] => Raise IndexError
  | VStr (String c _) => Ok (VStr (String c ""))
  | VStr "" => Raise IndexError
  | _ => Raise TypeError
  end.

(** The unpacking [(t, l) = key] of the loop header of [Router.jack].  A
    two-character string unpacks into its characters, as in Python. *)
Definition unpack2 (key : PyVal) : Result (PyVal * PyVal) :=
  match key with
  | VList [t; l] | VTuple [t; l] => Ok (t, l)
  | VStr (String c (String c' "")) => Ok (VStr (String c ""), VStr (String c' ""))
  | VList [] | VTuple [] | VStr "" =>
      Raise (ValueError "need more than 0 values to unpack")
  | VList [_] | VTuple [_] | VStr (String _ "") =>
      Raise (ValueError "need more than 1 value to unpack")
  | VList _ | VTuple _ | VStr _ => Raise (ValueError "too many values to unpack")
  | _ => Raise TypeError
  end.

(** ** Dictionaries with iteration order *)

Definition dict (V : Type) : Type := list (PyVal * V).

(** [d.get(k)]: [None] when [k not in d]. *)
Fixpoint dict_get {V} (d : dict V) (k : PyVal) : option V :=
  match d with
  | [] => None
  | (k', v) :: d' => if py_eq k' k then Some v else dict_get d' k
  end.

(** [k in d] *)
Definition dict_contains {V} (d : dict V) (k : PyVal) : bool :=
  match dict_get d k with
  | Some _ => true
  | None => false
  end.

(** [d[k]] *)
Definition dict_getitem {V} (d : dict V) (k : PyVal) : Result V :=
  match dict_get d k with
  | Some v => Ok v
  | None => Raise KeyError
  end.

(** [d[k] = v]: an existing entry keeps its place and gets the new value.  A
    new entry is put last; where Python puts it in the iteration order is
    unspecified, and the statements about iteration hold for every order. *)
Fixpoint dict_set {V} (d : dict V) (k : PyVal) (v : V) : dict V :=
  match d with
  | [] => [(k, v)]
  | (k', v') :: d' =>
      if py_eq k' k then (k', v) :: d' else (k', v') :: dict_set d' k v
  end.

Definition dict_keys {V} (d : dict V) : list PyVal := List.map fst d.

Definition dict_values {V} (d : dict V) : list V := List.map snd d.

(** A Python dict holds each key once. *)
Definition dict_wf {V} (d : dict V) : Prop := NoDup (dict_keys d).

(** The registry key of an address: [rtuple(addr[:n])], with [n = 2] for a
    jack and [n = 3] for a client. *)
Definition key_of (n : nat) (addr : PyVal) : Result PyVal :=
  s ← getslice addr n; mret (rtuple s).

(** A jack key as the data model has it: a tuple of transport type and
    location. *)
Definition jack_key_ok (key : PyVal) : bool :=
  match key with
  | VTuple [_; _] => true
  | _ => false
  end.

Definition jack_keys_ok {V} (d : dict V) : bool := forallb jack_key_ok (dict_keys d).

(** A client key as the data model has it: transport type, location and
    client identifier. *)
Definition client_key_ok (key : PyVal) : bool :=
  match key with
  | VTuple [_; _; _] => true
  | _ => false
  end.

Definition client_keys_ok {V} (d : dict V) : bool :=
  forallb client_key_ok (dict_keys d).

(** The key has transport type [t]. *)
Definition has_type (t : PyVal) (key : PyVal) : bool :=
  match key with
  | VTuple [t'; _] => py_eq t' t
  | _ => false
  end.

(** The first entry, in iteration order, whose key has transport type [t]. *)
Definition first_of_type {V} (t : PyVal) (d : dict V) : option (PyVal * V) :=
  List.find (fun kv => has_type t (fst kv)) d.

(** ** Collaborators of the router *)

(** A jack or a client: an object with an [interface] address.  [truth] is
    the value of the object in a boolean context ([x or y], [if x:]): true
    for an ordinary object, false for one whose class says so through
    [__nonzero__] or [__len__]. *)
Record Endpoint : Type := {
  oid : nat;
  interface : PyVal;
  truth : bool
}.

(** What the router imports and does not define: the [Frame] class and the
    rendering of a message.  [Frame msg] is [None] when the constructor
    raises; a jack's [run_threaded] and [close] return normally, a
    recipient's [route] may raise. *)
Class Collaborators : Type := {
  Msg : Type;
  FrameT : Type;
  Frame : Msg -> option FrameT;
  ftype : FrameT -> string;
  faddr : FrameT -> PyVal;
  str : Msg -> string;
  route_raises : Endpoint -> FrameT -> option Exn
}.

(** ** The router (router.py, class [Router]) *)

Record Router : Type := {
  runstate : string;
  _jacks : dict Endpoint;
  _clients : dict Endpoint;
  logging : bool;
  log : list string
}.

Definition set_runstate (level : string) (self : Router) : Router :=
  {| runstate := level; _jacks := _jacks self; _clients := _clients self;
     logging := logging self; log := log self |}.

Definition set_jacks (d : dict Endpoint) (self : Router) : Router :=
  {| runstate := runstate self; _jacks := d; _clients := _clients self;
     logging := logging self; log := log self |}.

Definition set_clients (d : dict Endpoint) (self : Router) : Router :=
  {| runstate := runstate self; _jacks := _jacks self; _clients := d;
     logging := logging self; log := log self |}.

Definition set_logging (b : bool) (self : Router) : Router :=
  {| runstate := runstate self; _jacks := _jacks self; _clients := _clients self;
     logging := b; log := log self |}.

Definition set_log (l : list string) (self : Router) : Router :=
  {| runstate := runstate self; _jacks := _jacks self; _clients := _clients self;
     logging := logging self; log := l |}.

(** The registry that results from storing the endpoints [es], in order,
    into [d], each under the key of the first [n] components of its
    interface. *)
Definition registry_of (n : nat) (es : list Endpoint) (d : dict Endpoint) : dict Endpoint :=
  List.fold_left (fun d e => match key_of n (interface e) with
                             | Ok key => dict_set d key e
                             | Raise _ => d
                             end) es d.

Section WithCollaborators.

Context {C : Collaborators}.

(** The lines the router prints. *)
Inductive Diagnostic : Type :=
| CouldNotParse (msg : Msg)
| CouldNotDeliver (addr : PyVal)
| ReceivedDirectly (addr : PyVal)
| GuardReport (e : Exn).

(** What a method does to the outside, in order. *)
Inductive Event : Type :=
| ERoute (recvr : Endpoint) (msg : FrameT)
| ERunThreaded (jack : Endpoint)
| EClose (jack : Endpoint)
| EPrint (line : Diagnostic).

Record Outcome (A : Type) : Type := {
  final : Router;
  trace : list Event;
  result : Result A
}.

Arguments final {A} o.
Arguments trace {A} o.
Arguments result {A} o.

Definition Method (A : Type) : Type := Router -> Outcome A.

#[global] Instance Method_ret : MRet Method := fun A a self =>
  {| final := self; trace := []; result := Ok a |}.

#[global] Instance Method_bind : MBind Method := fun A B f m self =>
  let o := m self in
  match result o with
  | Ok a =>
      let o' := f a (final o) in
      {| final := final o'; trace := trace o ++ trace o'; result := result o' |}
  | Raise e => {| final := final o; trace := trace o; result := Raise e |}
  end.

(** Reading an attribute of [self], assigning to attributes, evaluating an
    expression that may raise, and a call on a collaborator. *)
Definition attr {A} (f : Router -> A) : Method A := fun self =>
  {| final := self; trace := []; result := Ok (f self) |}.

Definition assign (f : Router -> Router) : Method unit := fun self =>
  {| final := f self; trace := []; result := Ok tt |}.

Definition eval {A} (r : Result A) : Method A := fun self =>
  {| final := self; trace := []; result := r |}.

Definition emit (e : Event) : Method unit := fun self =>
  {| final := self; trace := [e]; result := Ok tt |}.

(** [recvr.route(msg)] *)
Definition route (recvr : Endpoint) (msg : FrameT) : Method unit := fun self =>
  {| final := self; trace := [ERoute recvr msg];
     result := match route_raises recvr msg with
               | Some e => Raise e
               | None => Ok tt
               end |}.

(** Modelled from the spec: [ejtp.util.crashnicely.Guard], the context
    manager of [with Guard():], is not among the sources.  It is the
    fault-isolating scope of the specification: a failure raised inside it is
    caught and reported and does not propagate. *)
Definition Guard (body : Method unit) : Method unit := fun self =>
  let o := body self in
  match result o with
  | Ok _ => o
  | Raise e =>
      {| final := final o; trace := trace o ++ [EPrint (GuardReport e)];
         result := Ok tt |}
  end.

(** [for x in xs: body(x)] *)
Fixpoint for_each {A} (xs : list A) (body : A -> Method unit) : Method unit :=
  match xs with
  | [] => mret tt
  | x :: xs' => body x ;; for_each xs' body
  end.

(** Lines 76-78. *)
Definition log_add (msg : Msg) : Method unit :=
  enabled ← attr logging;
  if enabled : bool
  then l ← attr log; assign (set_log (l ++ [str msg]))
  else mret tt.

(** Lines 61-66.  The loop runs over the keys of [self._jacks]; each turn
    unpacks the key, evaluates [addr[0]], and returns from the method on the
    first match. *)
Fixpoint jack_loop (keys : list PyVal) (addr : PyVal) : Method (option Endpoint) :=
  match keys with
  | [] => mret None
  | key :: keys' =>
      tl ← eval (unpack2 key);
      a0 ← eval (getitem0 addr);
      if py_eq (fst tl) a0
      then d ← attr _jacks;
           j ← eval (dict_getitem d (VTuple [fst tl; snd tl]));
           mret (Some j)
      else jack_loop keys' addr
  end.

Definition jack (addr : PyVal) : Method (option Endpoint) :=
  d ← attr _jacks;
  jack_loop (dict_keys d) addr.

(** Lines 68-74. *)
Definition client (addr : PyVal) : Method (option Endpoint) :=
  s ← eval (getslice addr 3);
  let addr := rtuple s in
  d ← attr _clients;
  if dict_contains d addr
  then c ← eval (dict_getitem d addr); mret (Some c)
  else mret None.

(** Lines 85-93. *)
Definition thread_all : Method unit :=
  d ← attr _jacks;
  for_each (dict_keys d) (fun i =>
    d ← attr _jacks;
    j ← eval (dict_getitem d i);
    emit (ERunThreaded j)).

Definition stop_all : Method unit :=
  d ← attr _jacks;
  for_each (dict_keys d) (fun i =>
    d ← attr _jacks;
    j ← eval (dict_getitem d i);
    emit (EClose j)).

(** Lines 95-102. *)
Definition run (level : string) : Method unit :=
  (if String.eqb level "threaded"
   then rs ← attr runstate;
        if String.eqb rs "stopped" then thread_all else mret tt
   else if String.eqb level "stopped"
        then stop_all
        else mret tt) ;;
  assign (set_runstate level).

(** Lines 112-120. *)
Definition _loadjack (j : Endpoint) : Method unit :=
  s ← eval (getslice (interface j) 2);
  let key := rtuple s in
  d ← attr _jacks;
  assign (set_jacks (dict_set d key j)) ;;
  rs ← attr runstate;
  if String.eqb rs "threaded" then emit (ERunThreaded j) else mret tt.

Definition _loadclient (c : Endpoint) : Method unit :=
  s ← eval (getslice (interface c) 3);
  let key := rtuple s in
  d ← attr _clients;
  assign (set_clients (dict_set d key c)).

(** Lines 104-110. *)
Definition _loadjacks (jacks : list Endpoint) : Method unit :=
  for_each jacks _loadjack.

Definition _loadclients (clients : list Endpoint) : Method unit :=
  for_each clients _loadclient.

(** Lines 31-39.  The object starts without attributes; [logging] and [log]
    are not read before they are assigned, so the values they have in
    [blank] are never seen. *)
Definition blank : Router :=
  {| runstate := ""; _jacks := []; _clients := []; logging := false; log := [] |}.

Definition Router_init (jacks clients : list Endpoint) : Outcome unit :=
  (assign (set_runstate "stopped") ;;
   assign (set_jacks []) ;;
   assign (set_clients []) ;;
   _loadjacks jacks ;;
   _loadclients clients ;;
   assign (set_logging true) ;;
   assign (set_log []) ;;
   run "threaded") blank.

(** Lines 41-59.  [self.client(...) or self.jack(...)] is the client found
    if it is true in a boolean context; otherwise, no client found or a
    false one, it is what the adapter lookup gives.  [if recvr:] tests the
    recipient the same way. *)
Definition recv (msg : Msg) : Method unit :=
  log_add msg ;;
  match Frame msg with
  | None => emit (EPrint (CouldNotParse msg))
  | Some msg' =>
      if String.eqb (ftype msg') "r"
      then c ← client (faddr msg');
           recvr ← match c with
                   | Some cl => if truth cl then mret c else jack (faddr msg')
                   | None => jack (faddr msg')
                   end;
           match recvr with
           | Some r =>
               if truth r
               then Guard (route r msg')
               else emit (EPrint (CouldNotDeliver (faddr msg')))
           | None => emit (EPrint (CouldNotDeliver (faddr msg')))
           end
      else if String.eqb (ftype msg') "s"
           then emit (EPrint (ReceivedDirectly (faddr msg')))
           else mret tt
  end.

(** *** Auxiliary definitions for the statements below *)

(** The body of the loops of [thread_all] and [stop_all]. *)
Definition on_jack (call : Endpoint -> Event) (i : PyVal) : Method unit :=
  d ← attr _jacks; j ← eval (dict_getitem d i); emit (call j).

(** What [recv] does after the log entry: lines 45-59. *)
Definition dispatch (msg : Msg) : Method unit :=
  match Frame msg with
  | None => emit (EPrint (CouldNotParse msg))
  | Some msg' =>
      if String.eqb (ftype msg') "r"
      then c ← client (faddr msg');
           recvr ← match c with
                   | Some cl => if truth cl then mret c else jack (faddr msg')
                   | None => jack (faddr msg')
                   end;
           match recvr with
           | Some r =>
               if truth r
               then Guard (route r msg')
               else emit (EPrint (CouldNotDeliver (faddr msg')))
           | None => emit (EPrint (CouldNotDeliver (faddr msg')))
           end
      else if String.eqb (ftype msg') "s"
           then emit (EPrint (ReceivedDirectly (faddr msg')))
           else mret tt
  end.

(** The router once [log_add] has run. *)
Definition logged (msg : Msg) (self : Router) : Router :=
  if logging self then set_log (log self ++ [str msg]) self else self.

(** The value of [self.client(addr) or self.jack(addr)]: the client if
    there is one that is true in a boolean context, else what the adapter
    lookup gives. *)
Definition recipient (addr : PyVal) (self : Router) : Result (option Endpoint) :=
  match result (client addr self) with
  | Ok (Some cl) => if truth cl then Ok (Some cl) else result (jack addr self)
  | Ok None => result (jack addr self)
  | Raise e => Raise e
  end.

(** A method that, started in a state satisfying [P], ends in one, whether
    it returns or raises. *)
Definition ends_in {A} (P : string -> Prop) (m : Method A) : Prop :=
  forall self, P (runstate self) -> P (runstate (final (m self))).

(** A method that does not assign to [runstate]. *)
Definition keeps_runstate {A} (m : Method A) : Prop :=
  forall self, runstate (final (m self)) = runstate self.

(** The operations the router exposes after construction. *)
Inductive Op : Type :=
| OpRecv (msg : Msg)
| OpRegisterAdapter (j : Endpoint)
| OpRegisterClient (c : Endpoint)
| OpRun (level : string).

Definition exec (op : Op) : Method unit :=
  match op with
  | OpRecv msg => recv msg
  | OpRegisterAdapter j => _loadjack j
  | OpRegisterClient c => _loadclient c
  | OpRun level => run level
  end.

(** The router after a sequence of calls; a caller may go on after a call
    that raised, so the state is threaded through regardless. *)
Fixpoint exec_all (ops : list Op) (self : Router) : Router :=
  match ops with
  | [] => self
  | op :: ops' => exec_all ops' (final (exec op self))
  end.

(** The [route] calls of a trace, in order. *)
Definition deliveries (tr : list Event) : list (Endpoint * FrameT) :=
  List.flat_map (fun e => match e with
                          | ERoute recvr msg => [(recvr, msg)]
                          | _ => []
                          end) tr.

(** The [run_threaded] and [close] calls of a trace. *)
Definition starts (tr : list Event) : list Endpoint :=
  List.flat_map (fun e => match e with
                          | ERunThreaded j => [j]
                          | _ => []
                          end) tr.

Definition stops (tr : list Event) : list Endpoint :=
  List.flat_map (fun e => match e with
                          | EClose j => [j]
                          | _ => []
                          end) tr.

Definition valid_level (level : string) : bool :=
  String.eqb level "stopped" || String.eqb level "threaded".

Definition op_levels_valid (op : Op) : bool :=
  match op with
  | OpRun level => valid_level level
  | _ => true
  end.

(** The renderings of the messages a sequence of calls hands to [recv]. *)
Definition received (ops : list Op) : list string :=
  List.flat_map (fun op => match op with
                           | OpRecv msg => [str msg]
                           | _ => []
                           end) ops.

End WithCollaborators.

Arguments final {C A} o.
Arguments trace {C A} o.
Arguments result {C A} o.

(** ** Identities (identity/core.py) *)

Record Identity : Type := {
  _contents : gmap string PyVal;
  _encryptor : PyVal
}.

(** [Identity(name, encryptor, location, **kwargs)] (lines 23-46).  The
    call binds [self] and the three positional parameters first; a keyword
    of [kwargs] that names one of them is a second value for it, which
    Python refuses with [TypeError].  The encryptor object is made on first
    use, not here. *)
Definition Identity_init (name encryptor location : PyVal)
    (kwargs : gmap string PyVal) : Result Identity :=
  if existsb (fun p => bool_decide (is_Some (kwargs !! p)))
       ["self"; "name"; "encryptor"; "location"]
  then Raise TypeError
  else Ok {| _contents :=
               kwargs ∪ <["name" := name]>
                          (<["encryptor" := encryptor]>
                             (<["location" := location]> ∅));
             _encryptor := VNone |}.

(** ['%r' % req] for the three field names, which hold no quote or escape. *)
Definition repr_str (s : string) : string := "'" +:+ s +:+ "'".

Definition missing_property (req : string) : Exn :=
  ValueError ("Missing ident property: " +:+ repr_str req).

(** Lines 163-165. *)
Fixpoint check_required (reqs : list string) (ident_dict : gmap string PyVal)
    : Result unit :=
  match reqs with
  | [] => Ok tt
  | req :: reqs' =>
      if bool_decide (is_Some (ident_dict !! req))
      then check_required reqs' ident_dict
      else Raise (missing_property req)
  end.

Definition required : list string := ["name"; "location"; "encryptor"].

Definition dict_item (d : gmap string PyVal) (k : string) : Result PyVal :=
  match d !! k with
  | Some v => Ok v
  | None => Raise KeyError
  end.

(** Lines 135-175. *)
Definition deserialize (ident_dict : gmap string PyVal) : Result Identity :=
  check_required required ident_dict ;;
  name ← dict_item ident_dict "name";
  location ← dict_item ident_dict "location";
  encryptor ← dict_item ident_dict "encryptor";
  let cleaned := delete "encryptor" (delete "location" (delete "name" ident_dict)) in
  Identity_init name encryptor location cleaned.

(** The first required field that [ident_dict] lacks, in the order of the
    loop. *)
Definition first_missing (ident_dict : gmap string PyVal) : option string :=
  List.find (fun req => negb (bool_decide (is_Some (ident_dict !! req)))) required.

(** What [identity/core.py] imports from [ejtp.crypto] and does not define:
    [make], which builds an encryptor object from a prototype (or raises), and
    the methods [proto] and [public] of an encryptor, which return
    prototypes.  Encryptor objects are values like any other. *)
Class Crypto : Type := {
  make : PyVal -> Result PyVal;
  proto : PyVal -> PyVal;
  encryptor_public : PyVal -> PyVal
}.

(** Lines 48-55. *)
Definition Identity_getitem (self : Identity) (i : string) : Result PyVal :=
  dict_item (_contents self) i.

Definition Identity_setitem (self : Identity) (i : string) (v : PyVal) : Identity :=
  {| _contents := <[i := v]> (_contents self); _encryptor := _encryptor self |}.

Definition Identity_delitem (self : Identity) (i : string) : Result Identity :=
  match _contents self !! i with
  | Some _ => Ok {| _contents := delete i (_contents self);
                    _encryptor := _encryptor self |}
  | None => Raise KeyError
  end.

(** The properties [name] and [location] (lines 108-122). *)
Definition name (self : Identity) : Result PyVal := Identity_getitem self "name".

Definition set_name (self : Identity) (v : PyVal) : Identity :=
  Identity_setitem self "name" v.

Definition location (self : Identity) : Result PyVal :=
  Identity_getitem self "location".

Definition set_location (self : Identity) (v : PyVal) : Identity :=
  Identity_setitem self "location" v.

Section WithCrypto.

Context {K : Crypto}.

(** The getter of the property [encryptor] (lines 124-128): the identity
    afterwards, and the encryptor or the exception. *)
Definition encryptor (self : Identity) : Identity * Result PyVal :=
  if negb (truthy (_encryptor self))
  then match Identity_getitem self "encryptor" with
       | Raise e => (self, Raise e)
       | Ok p =>
           match make p with
           | Raise e => (self, Raise e)
           | Ok enc =>
               ({| _contents := _contents self; _encryptor := enc |}, Ok enc)
           end
       end
  else (self, Ok (_encryptor self)).


(** Lines 88-106: the identity afterwards, and the dict returned. *)
Definition serialize (self : Identity) : Identity * Result (gmap string PyVal) :=
  let (self1, r) := encryptor self in
  match r with
  | Raise e => (self1, Raise e)
  | Ok enc =>
      let self2 := Identity_setitem self1 "encryptor" (proto enc) in
      (self2, Ok (_contents self2))
  end.

(** Lines 63-80: the identity afterwards, and the public identity. *)
Definition public (self : Identity) : Identity * Result Identity :=
  let (self1, r) := encryptor self in
  match r with
  | Raise e => (self1, Raise e)
  | Ok enc =>
      let public_proto := encryptor_public enc in
      (self1,
       n ← name self1;
       l ← location self1;
       Identity_init n public_proto l ∅)
  end.

End WithCrypto.

(** ** A concrete setting, used to run the definitions *)

Module Demo.

(** Messages are strings: ["r"] and ["s"] parse into a frame of that kind
    for a fixed address, ["e"] into a routed frame with an empty address,
    and anything else is refused. *)
Definition demo_addr : PyVal := VList [VStr "local"; VNone; VStr "alice"].

Definition demo_parse (m : string) : option (string * PyVal) :=
  if String.eqb m "r" then Some ("r", demo_addr)
  else if String.eqb m "s" then Some ("s", demo_addr)
  else if String.eqb m "e" then Some ("r", VList [])
  else None.

Definition collab : Collaborators :=
  {| Msg := string;
     FrameT := string * PyVal;
     Frame := demo_parse;
     ftype := fst;
     faddr := snd;
     str := fun m => m;
     route_raises := fun _ _ => None |}.

Definition alice : Endpoint :=
  {| oid := 1; interface := VList [VStr "local"; VNone; VStr "alice"];
     truth := true |}.

Definition alice2 : Endpoint :=
  {| oid := 2; interface := VTuple [VStr "local"; VNone; VStr "alice"];
     truth := true |}.

Definition udp9 : Endpoint :=
  {| oid := 3; interface := VList [VStr "udp"; VStr "9.9.9.9"];
     truth := true |}.

Definition udp8 : Endpoint :=
  {| oid := 4; interface := VList [VStr "udp"; VStr "8.8.8.8"];
     truth := true |}.

Definition local_jack : Endpoint :=
  {| oid := 5; interface := VList [VStr "local"; VNone];
     truth := true |}.

Definition stopped_router : Router :=
  {| runstate := "stopped";
     _jacks := [(VTuple [VStr "udp"; VStr "9.9.9.9"], udp9);
                (VTuple [VStr "udp"; VStr "8.8.8.8"], udp8);
                (VTuple [VStr "local"; VNone], local_jack)];
     _clients := [(VTuple [VStr "local"; VNone; VStr "alice"], alice)];
     logging := true;
     log := [] |}.

Definition calvin : gmap string PyVal :=
  <["name" := VStr "Calvin"]>
    (<["location" := VList [VStr "local"; VNone; VStr "calvin"]]>
       (<["encryptor" := VList [VStr "rotate"; VInt 4]]>
          (<["comment" := VStr "Lives dangerously"]> ∅))).

(** A toy [ejtp.crypto]: a prototype is a list [[scheme, key]]; the
    encryptor made from it is the tuple with the same components, and a
    string is no prototype.  The public form of an encryptor replaces the
    key by [None]. *)
Definition demo_make (p : PyVal) : Result PyVal :=
  match p with
  | VList [scheme; key] | VTuple [scheme; key] => Ok (VTuple [scheme; key])
  | _ => Raise (ValueError "unknown encryptor prototype")
  end.

Definition demo_proto (enc : PyVal) : PyVal :=
  match enc with
  | VTuple items => VList items
  | _ => enc
  end.

Definition demo_public (enc : PyVal) : PyVal :=
  match enc with
  | VTuple [scheme; _] => VList [scheme; VNone]
  | _ => enc
  end.

Definition crypto : Crypto :=
  {| make := demo_make; proto := demo_proto; encryptor_public := demo_public |}.

Definition joe : Identity :=
  {| _contents :=
       <["name" := VStr "joe"]>
         (<["encryptor" := VList [VStr "rotate"; VInt 8]]>
            (<["location" := VNone]>
               (<["comment" := VStr "hello"]> ∅)));
     _encryptor := VNone |}.

Definition threaded_router : Router := set_runstate "threaded" stopped_router.

Definition short_jack : Endpoint :=
  {| oid := 6; interface := VList [VStr "tcp"];
     truth := true |}.

Definition broken_jack : Endpoint :=
  {| oid := 7; interface := VNone;
     truth := true |}.

Definition udp9b : Endpoint :=
  {| oid := 8; interface := VTuple [VStr "udp"; VStr "9.9.9.9"];
     truth := true |}.

(** A client whose class makes it false in a boolean context, and a router
    that holds it beside an adapter for the same location. *)
Definition quiet_alice : Endpoint :=
  {| oid := 10; interface := VList [VStr "local"; VNone; VStr "alice"];
     truth := false |}.

Definition quiet_client_router : Router :=
  {| runstate := "stopped";
     _jacks := [(VTuple [VStr "local"; VNone], local_jack)];
     _clients := [(VTuple [VStr "local"; VNone; VStr "alice"], quiet_alice)];
     logging := true;
     log := [] |}.

Definition bob : Endpoint :=
  {| oid := 9; interface := VList [VStr "local"; VNone; VStr "bob"];
     truth := true |}.

End Demo.

(** * Properties *)

(** ** Values *)

Lemma PyVal_nested_ind (P : PyVal -> Prop) :
  P VNone ->
  (forall n, P (VInt n)) ->
  (forall s, P (VStr s)) ->
  (forall id, P (VObj id)) ->
  (forall items, Forall P items -> P (VList items)) ->
  (forall items, Forall P items -> P (VTuple items)) ->
  forall v, P v.
Proof.
  intros HN HI HS HO HL HT.
  fix IH 1.
  intros [ | n | s | id | items | items ];
    [ exact HN | apply HI | apply HS | apply HO | | ].
  - apply HL. induction items as [ | x xs IHxs ]; constructor; [ apply IH | exact IHxs ].
  - apply HT. induction items as [ | x xs IHxs ]; constructor; [ apply IH | exact IHxs ].
Qed.

(** Componentwise comparison of two sequences, as the local [all2] of
    [py_eq] and [same_structure] does it. *)
Lemma all2_spec (R : PyVal -> PyVal -> bool) (Q : PyVal -> PyVal -> Prop) xs :
  Forall (fun x => forall y, R x y = true <-> Q x y) xs ->
  forall ys,
    (fix all2 (xs ys : list PyVal) : bool :=
       match xs, ys with
       | [], [] => true
       | x :: xs', y :: ys' => R x y && all2 xs' ys'
       | _, _ => false
       end) xs ys = true <-> Forall2 Q xs ys.
Proof.
  induction 1 as [ | x xs Hx _ IH ]; intros [ | y ys ].
  - split; [ constructor | reflexivity ].
  - split; [ discriminate | inversion 1 ].
  - split; [ discriminate | inversion 1 ].
  - rewrite andb_true_iff, Hx, IH. split.
    + intros [? ?]. now constructor.
    + inversion 1; subst. now split.
Qed.

Lemma Forall2_eq_iff (xs ys : list PyVal) : Forall2 eq xs ys <-> xs = ys.
Proof.
  split.
  - induction 1; congruence.
  - intros ->. induction ys; constructor; auto.
Qed.

Lemma py_eq_spec a b : py_eq a b = true <-> a = b.
Proof.
  revert b. induction a as [ | n | s | id | xs IH | xs IH ] using PyVal_nested_ind; intros b; destruct b;
    simpl; try (split; [ discriminate | congruence ]).
  - tauto.
  - rewrite Z.eqb_eq. split; congruence.
  - rewrite String.eqb_eq. split; congruence.
  - rewrite Nat.eqb_eq. split; congruence.
  - rewrite (all2_spec py_eq eq xs IH), Forall2_eq_iff. split; congruence.
  - rewrite (all2_spec py_eq eq xs IH), Forall2_eq_iff. split; congruence.
Qed.

Lemma py_eq_refl a : py_eq a a = true.
Proof. now apply py_eq_spec. Qed.

Lemma py_eq_false a b : py_eq a b = false <-> a <> b.
Proof.
  rewrite <- py_eq_spec. destruct (py_eq a b); split; congruence.
Qed.

(** ** [rtuple] *)

Lemma rtuple_idempotent a : rtuple (rtuple a) = rtuple a.
Proof.
  induction a as [ | n | s | id | xs IH | xs IH ] using PyVal_nested_ind; simpl; try reflexivity;
    f_equal; rewrite List.map_map; apply List.map_ext_in; intros x Hx;
    rewrite List.Forall_forall in IH; apply IH; exact Hx.
Qed.

Lemma map_rtuple_eq_iff xs ys :
  List.map rtuple xs = List.map rtuple ys <->
  Forall2 (fun x y => rtuple x = rtuple y) xs ys.
Proof.
  revert ys. induction xs as [ | x xs IH ]; intros [ | y ys ]; simpl.
  - split; [ constructor | reflexivity ].
  - split; [ discriminate | inversion 1 ].
  - split; [ discriminate | inversion 1 ].
  - split.
    + intros H. injection H as Hx Hxs. constructor; [ exact Hx | now apply IH ].
    + inversion 1; subst. f_equal; [ assumption | now apply IH ].
Qed.

Lemma same_structure_spec a b : same_structure a b = true <-> rtuple a = rtuple b.
Proof.
  revert b. induction a as [ | n | s | id | xs IH | xs IH ] using PyVal_nested_ind; intros b; destruct b;
    simpl; try (split; [ discriminate | congruence ]).
  - tauto.
  - rewrite Z.eqb_eq. split; congruence.
  - rewrite String.eqb_eq. split; congruence.
  - rewrite Nat.eqb_eq. split; congruence.
  - rewrite (all2_spec same_structure _ xs IH), <- map_rtuple_eq_iff. split; congruence.
  - rewrite (all2_spec same_structure _ xs IH), <- map_rtuple_eq_iff. split; congruence.
  - rewrite (all2_spec same_structure _ xs IH), <- map_rtuple_eq_iff. split; congruence.
  - rewrite (all2_spec same_structure _ xs IH), <- map_rtuple_eq_iff. split; congruence.
Qed.

Lemma rtuple_as_tuples a : rtuple a = as_tuples a.
Proof.
  induction a as [ | n | s | id | xs IH | xs IH ] using PyVal_nested_ind; simpl; try reflexivity;
    f_equal; apply List.map_ext_in; intros x Hx;
    rewrite List.Forall_forall in IH; apply IH; exact Hx.
Qed.

Lemma rtuple_as_lists a : rtuple (as_lists a) = rtuple a.
Proof.
  induction a as [ | n | s | id | xs IH | xs IH ] using PyVal_nested_ind; simpl; try reflexivity;
    f_equal; rewrite List.map_map; apply List.map_ext_in; intros x Hx;
    rewrite List.Forall_forall in IH; apply IH; exact Hx.
Qed.

Lemma rtuple_no_lists a : no_lists (rtuple a) = true.
Proof.
  induction a as [ | n | s | id | xs IH | xs IH ] using PyVal_nested_ind; simpl;
    try reflexivity; rewrite forallb_forall; intros y Hy;
    apply in_map_iff in Hy as (x & <- & Hx);
    rewrite List.Forall_forall in IH; now apply IH.
Qed.

(** C5: [rtuple] is idempotent; two values of the same structure, whichever
    of their sequences are lists and whichever tuples, have the same
    canonical form (and only those have), in particular the all-lists and
    the all-tuples form of a value; and a value that is neither a list nor a
    tuple is returned as it is.  The canonical form of a list or of a tuple
    is a tuple, the tuple of the canonical forms of its items, so that no
    list is left in it at any depth; two sequences of the same structure
    canonicalize to one and the same tuple. *)
Theorem rtuple_canonical :
  (forall a, rtuple (rtuple a) = rtuple a) /\
  (forall a b, same_structure a b = true <-> rtuple a = rtuple b) /\
  (forall a, rtuple (as_lists a) = rtuple (as_tuples a)) /\
  (forall a, is_seq a = false -> rtuple a = a) /\
  (forall items, rtuple (VList items) = VTuple (List.map rtuple items) /\
                 rtuple (VTuple items) = VTuple (List.map rtuple items)) /\
  (forall a, no_lists (rtuple a) = true) /\
  (forall a b, is_seq a = true -> same_structure a b = true ->
     exists items, rtuple a = VTuple items /\ rtuple b = VTuple items /\
                   forallb no_lists items = true).
Proof.
  split; [ exact rtuple_idempotent | ].
  split; [ exact same_structure_spec | ].
  split; [ | split; [ | split; [ | split ] ] ].
  - intros a. rewrite rtuple_as_lists, <- (rtuple_as_tuples a).
    symmetry. apply rtuple_idempotent.
  - intros [ | n | s | id | xs | xs ]; simpl; congruence.
  - intros items. split; reflexivity.
  - exact rtuple_no_lists.
  - intros a b Ha Hab. apply same_structure_spec in Hab.
    pose proof (rtuple_no_lists a) as Hn.
    destruct a as [ | n | s | id | xs | xs ]; try discriminate Ha;
      exists (List.map rtuple xs); rewrite <- Hab; repeat split; exact Hn.
Qed.

Lemma rtuple_canonical_witness :
  rtuple (rtuple (VList [VStr "udp"; VList [VStr "h"; VInt 9]])) =
    rtuple (VList [VStr "udp"; VList [VStr "h"; VInt 9]]) /\
  rtuple (VList [VStr "udp"; VTuple [VStr "h"; VInt 9]]) =
    rtuple (VTuple [VStr "udp"; VList [VStr "h"; VInt 9]]) /\
  rtuple (VStr "udp") = VStr "udp" /\
  (exists items,
     rtuple (VList [VStr "udp"; VTuple [VStr "h"; VInt 9]]) = VTuple items /\
     rtuple (VTuple [VStr "udp"; VList [VStr "h"; VInt 9]]) = VTuple items /\
     forallb no_lists items = true).
Proof.
  destruct rtuple_canonical as (Hidem & Hsame & _ & Hscalar & _ & _ & Htuple).
  split; [ apply Hidem | ].
  split; [ apply Hsame; reflexivity | ].
  split; [ apply Hscalar; reflexivity | ].
  apply Htuple; reflexivity.
Defined.

(** ** Dictionaries *)

Section DictFacts.

Context {V : Type}.
Implicit Types (d : dict V) (k : PyVal) (v : V).

Lemma dict_get_set_eq d k v : dict_get (dict_set d k v) k = Some v.
Proof.
  induction d as [ | [k' v'] d IH ]; simpl.
  - now rewrite py_eq_refl.
  - destruct (py_eq k' k) eqn:E; simpl; rewrite E; [ reflexivity | exact IH ].
Qed.

Lemma dict_get_set_ne d k k' v : k <> k' -> dict_get (dict_set d k v) k' = dict_get d k'.
Proof.
  intros Hne. induction d as [ | [k0 v0] d IH ]; simpl.
  - apply py_eq_false in Hne. now rewrite Hne.
  - destruct (py_eq k0 k) eqn:E; simpl.
    + apply py_eq_spec in E. subst k0. apply py_eq_false in Hne. now rewrite Hne.
    + now rewrite IH.
Qed.

Lemma dict_set_set d k v1 v2 : dict_set (dict_set d k v1) k v2 = dict_set d k v2.
Proof.
  induction d as [ | [k' v'] d IH ]; simpl.
  - now rewrite py_eq_refl.
  - destruct (py_eq k' k) eqn:E; simpl; rewrite E; [ reflexivity | now rewrite IH ].
Qed.

Lemma dict_get_In d k v : dict_get d k = Some v -> In (k, v) d.
Proof.
  induction d as [ | [k' v'] d IH ]; simpl; [ discriminate | ].
  destruct (py_eq k' k) eqn:E.
  - apply py_eq_spec in E. intros [= ->]. left. now subst.
  - intros H. right. now apply IH.
Qed.

Lemma dict_get_None d k : dict_get d k = None <-> ~ In k (dict_keys d).
Proof.
  induction d as [ | [k' v'] d IH ]; simpl; [ tauto | ].
  destruct (py_eq k' k) eqn:E.
  - apply py_eq_spec in E. split; [ discriminate | tauto ].
  - apply py_eq_false in E. rewrite IH. tauto.
Qed.

Lemma dict_keys_set d k v :
  dict_keys (dict_set d k v) =
  if dict_contains d k then dict_keys d else dict_keys d ++ [k].
Proof.
  unfold dict_contains.
  induction d as [ | [k' v'] d IH ]; simpl; [ reflexivity | ].
  destruct (py_eq k' k) eqn:E; simpl; [ reflexivity | ].
  rewrite IH. now destruct (dict_get d k).
Qed.

Lemma dict_set_wf d k v : dict_wf d -> dict_wf (dict_set d k v).
Proof.
  unfold dict_wf. intros Hd. rewrite dict_keys_set. unfold dict_contains.
  destruct (dict_get d k) eqn:E; [ exact Hd | ].
  apply dict_get_None in E.
  apply NoDup_app. repeat split.
  - exact Hd.
  - intros x Hx Hin. apply list_elem_of_In in Hx. apply list_elem_of_In in Hin.
    destruct Hin as [ <- | [] ]. contradiction.
  - apply NoDup_singleton.
Qed.

(** In a well-formed dict the lookups of the keys, in order, give the
    values, in order. *)
Lemma dict_wf_lookup_all d :
  dict_wf d -> Forall2 (fun k v => dict_get d k = Some v) (dict_keys d) (dict_values d).
Proof.
  unfold dict_wf. induction d as [ | [k v] d IH ]; simpl; intros Hd.
  - constructor.
  - apply NoDup_cons in Hd as [Hk Hd]. constructor.
    + simpl. now rewrite py_eq_refl.
    + specialize (IH Hd).
      assert (Hsub : forall ks, (forall x, In x ks -> In x (dict_keys d)) ->
                forall vs, Forall2 (fun k0 v0 => dict_get d k0 = Some v0) ks vs ->
                Forall2 (fun k0 v0 => dict_get ((k, v) :: d) k0 = Some v0) ks vs).
      { intros ks Hks vs H. induction H as [ | k0 v0 ks vs H0 _ IH' ]; constructor.
        - simpl. destruct (py_eq k k0) eqn:E; [ | exact H0 ].
          apply py_eq_spec in E. subst k0. exfalso. apply Hk.
          apply list_elem_of_In, Hks. now left.
        - apply IH'. intros x Hx. apply Hks. now right. }
      apply Hsub; [ auto | exact IH ].
Qed.

Lemma first_of_type_spec t d :
  jack_keys_ok d = true ->
  match first_of_type t d with
  | Some (key, v) => exists l, key = VTuple [t; l] /\ In (key, v) d
  | None => forall l v, ~ In (VTuple [t; l], v) d
  end.
Proof.
  unfold jack_keys_ok, first_of_type, dict_keys.
  induction d as [ | [k v] d IH ]; simpl; intros Hok.
  - auto.
  - apply andb_true_iff in Hok as [Hk Hok]. specialize (IH Hok).
    destruct k as [ | | | | | [ | t' [ | l' [ | ] ] ] ]; try discriminate Hk.
    simpl. destruct (py_eq t' t) eqn:E.
    + apply py_eq_spec in E. subst t'. exists l'. split; [ reflexivity | now left ].
    + destruct (List.find _ d) as [ [key v0] | ].
      * destruct IH as (l & -> & Hin). exists l. split; [ reflexivity | now right ].
      * intros l v0 [ H | H ]; [ | exact (IH l v0 H) ].
        injection H as -> _ _. rewrite py_eq_refl in E. discriminate.
Qed.

End DictFacts.

(** ** Router methods *)

(** Unfolds the monadic plumbing of a method applied to a router. *)
Ltac run_method :=
  unfold mbind, Method_bind, mret, Method_ret, attr, assign, eval, emit; simpl.

Section LookupFacts.

Context {C : Collaborators}.

Lemma dict_get_first_of_type {V} t (d : dict V) key v :
  first_of_type t d = Some (key, v) -> dict_get d key = Some v.
Proof.
  unfold first_of_type. induction d as [ | [k0 v0] d IH ]; simpl; [ discriminate | ].
  destruct (has_type t k0) eqn:E.
  - intros [= -> ->]. now rewrite py_eq_refl.
  - intros H. destruct (py_eq k0 key) eqn:Ek; [ | now apply IH ].
    apply py_eq_spec in Ek. subst k0.
    apply List.find_some in H as [_ H]. simpl in H. congruence.
Qed.

Lemma find_dict_keys {V} t (d : dict V) :
  List.find (has_type t) (dict_keys d) = option_map fst (first_of_type t d).
Proof.
  unfold first_of_type, dict_keys.
  induction d as [ | [k0 v0] d IH ]; simpl; [ reflexivity | ].
  now destruct (has_type t k0).
Qed.

(** The loop of [Router.jack] over keys that are pairs: it stops at the
    first key of the queried transport type and returns what the dict holds
    under that key. *)
Lemma jack_loop_run keys addr a0 self :
  getitem0 addr = Ok a0 ->
  forallb jack_key_ok keys = true ->
  jack_loop keys addr self =
  {| final := self; trace := [];
     result := match List.find (has_type a0) keys with
               | Some key => match dict_get (_jacks self) key with
                             | Some j => Ok (Some j)
                             | None => Raise KeyError
                             end
               | None => Ok None
               end |}.
Proof.
  intros Ha. induction keys as [ | key keys IH ]; simpl; intros Hok; [ reflexivity | ].
  apply andb_true_iff in Hok as [Hk Hok].
  destruct key as [ | | | | | [ | t [ | l [ | ] ] ] ]; try discriminate Hk.
  run_method. rewrite Ha. simpl.
  destruct (py_eq t a0) eqn:E; simpl.
  - unfold dict_getitem. now destruct (dict_get (_jacks self) (VTuple [t; l])).
  - rewrite (IH Hok). reflexivity.
Qed.

Lemma jack_run addr a0 self :
  getitem0 addr = Ok a0 ->
  jack_keys_ok (_jacks self) = true ->
  jack addr self =
  {| final := self; trace := [];
     result := Ok (option_map snd (first_of_type a0 (_jacks self))) |}.
Proof.
  intros Ha Hok. unfold jack. run_method.
  rewrite (jack_loop_run _ _ _ _ Ha Hok). simpl. f_equal.
  rewrite find_dict_keys.
  destruct (first_of_type a0 (_jacks self)) as [ [key v] | ] eqn:E; simpl; [ | reflexivity ].
  now rewrite (dict_get_first_of_type _ _ _ _ E).
Qed.

(** The lookup reads the queried address through [addr[0]] only. *)
Lemma jack_loop_addr0 keys addr addr' self :
  getitem0 addr = getitem0 addr' ->
  jack_loop keys addr self = jack_loop keys addr' self.
Proof.
  intros Ha. induction keys as [ | key keys IH ]; simpl; [ reflexivity | ].
  run_method. destruct (unpack2 key) as [ [t l] | e ]; simpl; [ | reflexivity ].
  rewrite <- Ha. destruct (getitem0 addr) as [ a0 | e ]; simpl; [ | reflexivity ].
  destruct (py_eq t a0); [ reflexivity | ]. now rewrite IH.
Qed.

End LookupFacts.

(** C1: adapter lookup on a router whose jack keys are pairs of transport
    type and location, for an address with a first component [a0].  The
    lookup changes nothing and calls nothing; it returns the adapter of the
    first entry, in iteration order, whose key has transport type [a0]: an
    adapter registered under some [(a0, l)] when there is one, [None] when
    there is none.  The location of the address plays no part: two addresses
    with the same first component give the same lookup. *)
Theorem jack_matches_transport_type {C : Collaborators} (self : Router) (addr a0 : PyVal) :
  jack_keys_ok (_jacks self) = true ->
  getitem0 addr = Ok a0 ->
  final (jack addr self) = self /\
  trace (jack addr self) = [] /\
  result (jack addr self) = Ok (option_map snd (first_of_type a0 (_jacks self))) /\
  ((exists l j, In (VTuple [a0; l], j) (_jacks self)) ->
   exists l j, result (jack addr self) = Ok (Some j) /\
               In (VTuple [a0; l], j) (_jacks self)) /\
  ((forall l j, ~ In (VTuple [a0; l], j) (_jacks self)) ->
   result (jack addr self) = Ok None) /\
  (forall addr', getitem0 addr' = Ok a0 -> jack addr' self = jack addr self).
Proof.
  intros Hok Ha. rewrite (jack_run _ _ _ Ha Hok). simpl.
  repeat split.
  - intros (l & j & Hin).
    pose proof (first_of_type_spec a0 (_jacks self) Hok) as H.
    destruct (first_of_type a0 (_jacks self)) as [ [key v] | ].
    + destruct H as (l' & -> & Hin'). exists l', v. now split.
    + exfalso. exact (H l j Hin).
  - intros Hnone.
    pose proof (first_of_type_spec a0 (_jacks self) Hok) as H.
    destruct (first_of_type a0 (_jacks self)) as [ [key v] | ]; [ | reflexivity ].
    destruct H as (l' & -> & Hin'). exfalso. exact (Hnone l' v Hin').
  - intros addr' Ha'. now rewrite (jack_run _ _ _ Ha' Hok).
Qed.

Lemma jack_matches_transport_type_witness :
  exists j,
    result (@jack Demo.collab (VList [VStr "udp"; VStr "1.1.1.1"]) Demo.stopped_router)
      = Ok (Some j) /\
    In j [Demo.udp9; Demo.udp8].
Proof.
  destruct (@jack_matches_transport_type Demo.collab Demo.stopped_router
              (VList [VStr "udp"; VStr "1.1.1.1"]) (VStr "udp")
              eq_refl eq_refl) as (_ & _ & Hres & _).
  exists Demo.udp9. split; [ exact Hres | now left ].
Defined.

Section RegistryFacts.

Context {C : Collaborators}.

Lemma client_run addr self :
  client addr self =
  {| final := self; trace := [];
     result := match getslice addr 3 with
               | Ok s => Ok (dict_get (_clients self) (rtuple s))
               | Raise e => Raise e
               end |}.
Proof.
  unfold client. run_method.
  destruct (getslice addr 3) as [ s | e ]; simpl; [ | reflexivity ].
  unfold dict_contains, dict_getitem.
  now destruct (dict_get (_clients self) (rtuple s)).
Qed.

Lemma loadclient_run c s self :
  getslice (interface c) 3 = Ok s ->
  _loadclient c self =
  {| final := set_clients (dict_set (_clients self) (rtuple s) c) self;
     trace := []; result := Ok tt |}.
Proof. intros H. unfold _loadclient. run_method. now rewrite H. Qed.

Lemma loadjack_run j s self :
  getslice (interface j) 2 = Ok s ->
  _loadjack j self =
  {| final := set_jacks (dict_set (_jacks self) (rtuple s) j) self;
     trace := if String.eqb (runstate self) "threaded" then [ERunThreaded j] else [];
     result := Ok tt |}.
Proof.
  intros H. unfold _loadjack. run_method. rewrite H. simpl.
  now destruct (String.eqb (runstate self) "threaded").
Qed.

Lemma on_jack_run call i j self :
  dict_get (_jacks self) i = Some j ->
  on_jack call i self = {| final := self; trace := [call j]; result := Ok tt |}.
Proof.
  intros H. unfold on_jack. run_method. unfold dict_getitem. now rewrite H.
Qed.

(** A loop over keys whose lookups succeed calls the operation on each value
    in turn. *)
Lemma for_each_lookup (call : Endpoint -> Event) keys vals self :
  Forall2 (fun k v => dict_get (_jacks self) k = Some v) keys vals ->
  for_each keys (on_jack call) self =
  {| final := self; trace := List.map call vals; result := Ok tt |}.
Proof.
  induction 1 as [ | k v keys vals Hk _ IH ]; [ reflexivity | ].
  cbn [for_each]. unfold mbind, Method_bind.
  rewrite (on_jack_run call k v self Hk). cbn [final trace result].
  rewrite IH. reflexivity.
Qed.

Lemma thread_all_run self :
  dict_wf (_jacks self) ->
  thread_all self =
  {| final := self; trace := List.map ERunThreaded (dict_values (_jacks self));
     result := Ok tt |}.
Proof.
  intros Hwf. unfold thread_all.
  change (fun i => d ← attr _jacks; j ← eval (dict_getitem d i); emit (ERunThreaded j))
    with (on_jack ERunThreaded).
  unfold mbind, Method_bind, attr. cbn [final trace result].
  now rewrite (for_each_lookup ERunThreaded _ _ self (dict_wf_lookup_all _ Hwf)).
Qed.

Lemma stop_all_run self :
  dict_wf (_jacks self) ->
  stop_all self =
  {| final := self; trace := List.map EClose (dict_values (_jacks self));
     result := Ok tt |}.
Proof.
  intros Hwf. unfold stop_all.
  change (fun i => d ← attr _jacks; j ← eval (dict_getitem d i); emit (EClose j))
    with (on_jack EClose).
  unfold mbind, Method_bind, attr. cbn [final trace result].
  now rewrite (for_each_lookup EClose _ _ self (dict_wf_lookup_all _ Hwf)).
Qed.

Lemma run_threaded_stopped self :
  dict_wf (_jacks self) ->
  runstate self = "stopped" ->
  run "threaded" self =
  {| final := set_runstate "threaded" self;
     trace := List.map ERunThreaded (dict_values (_jacks self));
     result := Ok tt |}.
Proof.
  intros Hwf Hs. unfold run.
  change ("threaded" =? "threaded")%string with true. cbv beta iota.
  unfold mbind, Method_bind, attr, assign. cbn [final trace result].
  rewrite Hs. change ("stopped" =? "stopped")%string with true. cbv beta iota.
  rewrite (thread_all_run self Hwf). cbn [final trace result].
  now rewrite app_nil_r.
Qed.

Lemma run_stopped self :
  dict_wf (_jacks self) ->
  run "stopped" self =
  {| final := set_runstate "stopped" self;
     trace := List.map EClose (dict_values (_jacks self));
     result := Ok tt |}.
Proof.
  intros Hwf. unfold run.
  change ("stopped" =? "threaded")%string with false.
  change ("stopped" =? "stopped")%string with true. cbv beta iota.
  unfold mbind, Method_bind, assign.
  rewrite (stop_all_run self Hwf). cbn [final trace result].
  now rewrite app_nil_r.
Qed.

Lemma starts_map_run js : starts (List.map ERunThreaded js) = js.
Proof. induction js as [ | j js IH ]; simpl; [ reflexivity | now rewrite IH ]. Qed.

Lemma stops_map_close js : stops (List.map EClose js) = js.
Proof. induction js as [ | j js IH ]; simpl; [ reflexivity | now rewrite IH ]. Qed.

End RegistryFacts.

(** C8: registering an adapter whose interface has at least two components
    stores it under the tuple of the canonical forms of the first two, and
    returns normally.  [run_threaded] is called on it, once, exactly when the
    router is in state ["threaded"]; in any other state nothing is called. *)
Theorem loadjack_stores_and_starts {C : Collaborators}
    (self : Router) (j : Endpoint) (t l : PyVal) (rest : list PyVal) :
  interface j = VList (t :: l :: rest) \/ interface j = VTuple (t :: l :: rest) ->
  let key := VTuple [rtuple t; rtuple l] in
  let o := _loadjack j self in
  result o = Ok tt /\
  final o = set_jacks (dict_set (_jacks self) key j) self /\
  dict_get (_jacks (final o)) key = Some j /\
  (runstate self = "threaded" -> trace o = [ERunThreaded j]) /\
  (runstate self <> "threaded" -> trace o = []) /\
  (trace o = [ERunThreaded j] <-> runstate self = "threaded").
Proof.
  intros Hi key o.
  assert (Hs : getslice (interface j) 2 = Ok (VList [t; l]) \/
               getslice (interface j) 2 = Ok (VTuple [t; l])).
  { destruct Hi as [ -> | -> ]; [ left | right ]; reflexivity. }
  assert (Ho : o = {| final := set_jacks (dict_set (_jacks self) key j) self;
                      trace := if String.eqb (runstate self) "threaded"
                               then [ERunThreaded j] else [];
                      result := Ok tt |}).
  { destruct Hs as [ Hs | Hs ]; exact (loadjack_run j _ self Hs). }
  rewrite Ho. simpl.
  split; [ reflexivity | ]. split; [ reflexivity | ].
  split; [ apply dict_get_set_eq | ].
  destruct (String.eqb_spec (runstate self) "threaded") as [ E | E ].
  - repeat split; tauto.
  - repeat split; try tauto; discriminate.
Qed.

Lemma loadjack_stores_and_starts_witness :
  trace (@_loadjack Demo.collab Demo.udp9 Demo.stopped_router) = [] /\
  trace (@_loadjack Demo.collab Demo.udp9 (set_runstate "threaded" Demo.stopped_router))
    = [ERunThreaded Demo.udp9].
Proof.
  split.
  - apply (@loadjack_stores_and_starts Demo.collab Demo.stopped_router Demo.udp9
             (VStr "udp") (VStr "9.9.9.9") []); [ left; reflexivity | discriminate ].
  - apply (@loadjack_stores_and_starts Demo.collab
             (set_runstate "threaded" Demo.stopped_router) Demo.udp9
             (VStr "udp") (VStr "9.9.9.9") []); [ left; reflexivity | reflexivity ].
Defined.

(** C6: after a client is registered, looking up any address with the same
    client key returns that client; after a second client with the same key
    is registered, the lookup returns the second, and the registry is the
    one that registering the second client alone would have produced: the
    first client is no longer in it under that key. *)
Theorem client_register_lookup {C : Collaborators}
    (self : Router) (c1 c2 : Endpoint) (K addr : PyVal) :
  key_of 3 (interface c1) = Ok K ->
  key_of 3 (interface c2) = Ok K ->
  key_of 3 addr = Ok K ->
  let r1 := final (_loadclient c1 self) in
  let r2 := final (_loadclient c2 r1) in
  result (_loadclient c1 self) = Ok tt /\
  result (client addr r1) = Ok (Some c1) /\
  result (_loadclient c2 r1) = Ok tt /\
  result (client addr r2) = Ok (Some c2) /\
  _clients r2 = _clients (final (_loadclient c2 self)) /\
  (c1 <> c2 -> dict_get (_clients r2) K <> Some c1).
Proof.
  unfold key_of. intros H1 H2 Ha.
  destruct (getslice (interface c1) 3) as [ s1 | ] eqn:E1; [ | discriminate ].
  destruct (getslice (interface c2) 3) as [ s2 | ] eqn:E2; [ | discriminate ].
  destruct (getslice addr 3) as [ sa | ] eqn:Ea; [ | discriminate ].
  simpl in H1, H2, Ha. injection H1 as H1. injection H2 as H2. injection Ha as Ha.
  cbv zeta.
  rewrite !(loadclient_run c1 s1 _ E1). simpl.
  rewrite !(loadclient_run c2 s2 _ E2). simpl.
  rewrite !client_run, Ea. simpl.
  rewrite H1, H2, Ha, dict_set_set, !dict_get_set_eq.
  repeat split. congruence.
Qed.

Lemma client_register_lookup_witness :
  result (@client Demo.collab (VTuple [VStr "local"; VNone; VStr "alice"; VInt 7])
            (final (@_loadclient Demo.collab Demo.alice2
                      (final (@_loadclient Demo.collab Demo.alice Demo.stopped_router)))))
    = Ok (Some Demo.alice2).
Proof.
  apply (@client_register_lookup Demo.collab Demo.stopped_router Demo.alice Demo.alice2
           (VTuple [VStr "local"; VNone; VStr "alice"])
           (VTuple [VStr "local"; VNone; VStr "alice"; VInt 7]));
    reflexivity.
Defined.

(** C4: on a stopped router, [run("threaded")] twice in a row returns
    normally both times; the first call calls [run_threaded] on the adapter
    of every entry of the registry, once each, in iteration order, and the
    second call calls nothing.  [run("stopped")] on any router, started or
    not, returns normally, calls [close] on the adapter of every entry, and
    leaves the router stopped. *)
Theorem run_lifecycle {C : Collaborators} (self : Router) :
  dict_wf (_jacks self) ->
  runstate self = "stopped" ->
  let o1 := run "threaded" self in
  let o2 := run "threaded" (final o1) in
  result o1 = Ok tt /\ result o2 = Ok tt /\
  trace o1 = List.map ERunThreaded (dict_values (_jacks self)) /\
  trace o2 = [] /\
  starts (trace o1 ++ trace o2) = dict_values (_jacks self) /\
  runstate (final o2) = "threaded" /\
  (forall r : Router,
     dict_wf (_jacks r) ->
     let o := run "stopped" r in
     result o = Ok tt /\
     trace o = List.map EClose (dict_values (_jacks r)) /\
     stops (trace o) = dict_values (_jacks r) /\
     final o = set_runstate "stopped" r).
Proof.
  intros Hwf Hs o1 o2.
  assert (H1 : o1 = {| final := set_runstate "threaded" self;
                       trace := List.map ERunThreaded (dict_values (_jacks self));
                       result := Ok tt |}).
  { subst o1. rewrite (run_threaded_stopped self Hwf Hs). reflexivity. }
  assert (H2 : o2 = {| final := set_runstate "threaded" self; trace := [];
                       result := Ok tt |}).
  { subst o2. rewrite H1. reflexivity. }
  rewrite H1, H2. simpl. rewrite app_nil_r, starts_map_run.
  repeat split; rewrite (run_stopped r H); simpl;
    try reflexivity. apply stops_map_close.
Qed.

Lemma stopped_router_wf : dict_wf (_jacks Demo.stopped_router).
Proof.
  unfold dict_wf. simpl.
  repeat (apply NoDup_cons; split;
          [ rewrite ?elem_of_cons, elem_of_nil; intuition discriminate | ]).
  apply NoDup_nil. exact I.
Qed.

Lemma run_lifecycle_witness :
  starts (trace (@run Demo.collab "threaded" Demo.stopped_router) ++
          trace (@run Demo.collab "threaded"
                   (final (@run Demo.collab "threaded" Demo.stopped_router))))
    = [Demo.udp9; Demo.udp8; Demo.local_jack] /\
  stops (trace (@run Demo.collab "stopped" Demo.stopped_router))
    = [Demo.udp9; Demo.udp8; Demo.local_jack].
Proof.
  destruct (@run_lifecycle Demo.collab Demo.stopped_router stopped_router_wf eq_refl)
    as (_ & _ & _ & _ & Hstarts & _ & Hstop).
  split; [ exact Hstarts | ].
  apply (Hstop Demo.stopped_router stopped_router_wf).
Defined.

Section RecvFacts.

Context {C : Collaborators}.

Lemma recv_dispatch msg : recv msg = (log_add msg ;; dispatch msg).
Proof. reflexivity. Qed.

Lemma log_add_run msg self :
  log_add msg self = {| final := logged msg self; trace := []; result := Ok tt |}.
Proof.
  unfold log_add, logged. run_method. now destruct (logging self).
Qed.

(** A lookup leaves the router as it is, calls nothing, and depends on the
    registry alone. *)
Lemma jack_loop_lookup keys addr r1 r2 :
  _jacks r1 = _jacks r2 ->
  jack_loop keys addr r1 =
  {| final := r1; trace := []; result := result (jack_loop keys addr r2) |}.
Proof.
  intros Hj. induction keys as [ | key keys IH ]; [ reflexivity | ].
  cbn [jack_loop]. run_method.
  destruct (unpack2 key) as [ [t l] | e ]; simpl; [ | reflexivity ].
  destruct (getitem0 addr) as [ a0 | e ]; simpl; [ | reflexivity ].
  destruct (py_eq t a0); simpl.
  - rewrite Hj. now destruct (dict_getitem (_jacks r2) (VTuple [t; l])).
  - rewrite IH. reflexivity.
Qed.

Lemma jack_lookup addr r1 r2 :
  _jacks r1 = _jacks r2 ->
  jack addr r1 = {| final := r1; trace := []; result := result (jack addr r2) |}.
Proof.
  intros Hj. unfold jack. run_method.
  rewrite (jack_loop_lookup _ _ r1 r2 Hj), Hj. reflexivity.
Qed.

Lemma guard_route_run r f self :
  Guard (route r f) self =
  {| final := self;
     trace := ERoute r f :: match route_raises r f with
                            | Some e => [EPrint (GuardReport e)]
                            | None => []
                            end;
     result := Ok tt |}.
Proof.
  unfold Guard, route. simpl. now destruct (route_raises r f).
Qed.

Lemma recipient_lookup addr r1 r2 :
  _jacks r1 = _jacks r2 ->
  _clients r1 = _clients r2 ->
  recipient addr r1 = recipient addr r2.
Proof.
  intros Hj Hc. unfold recipient.
  rewrite !client_run, Hc, (jack_lookup addr r1 r2 Hj). reflexivity.
Qed.

Lemma dispatch_routed msg f self :
  Frame msg = Some f ->
  ftype f = "r" ->
  dispatch msg self =
  match recipient (faddr f) self with
  | Ok (Some r) =>
      if truth r
      then Guard (route r f) self
      else {| final := self; trace := [EPrint (CouldNotDeliver (faddr f))];
              result := Ok tt |}
  | Ok None =>
      {| final := self; trace := [EPrint (CouldNotDeliver (faddr f))]; result := Ok tt |}
  | Raise e => {| final := self; trace := []; result := Raise e |}
  end.
Proof.
  intros Hf Ht. unfold dispatch, recipient. rewrite Hf, Ht.
  change ("r" =? "r")%string with true. cbv beta iota.
  unfold mbind, Method_bind, mret, Method_ret.
  rewrite client_run. cbn [final trace result].
  destruct (getslice (faddr f) 3) as [ s | e ]; [ | reflexivity ].
  destruct (dict_get (_clients self) (rtuple s)) as [ c | ];
    [ destruct (truth c) eqn:Hc | ].
  - cbn [final trace result]. rewrite Hc, guard_route_run. reflexivity.
  - rewrite (jack_lookup (faddr f) self self eq_refl). cbn [final trace result].
    destruct (result (jack (faddr f) self)) as [ [ r | ] | e ]; try reflexivity.
    destruct (truth r); [ | reflexivity ].
    rewrite guard_route_run. reflexivity.
  - rewrite (jack_lookup (faddr f) self self eq_refl). cbn [final trace result].
    destruct (result (jack (faddr f) self)) as [ [ r | ] | e ]; try reflexivity.
    destruct (truth r); [ | reflexivity ].
    rewrite guard_route_run. reflexivity.
Qed.

Lemma dispatch_lookup msg r1 r2 :
  _jacks r1 = _jacks r2 ->
  _clients r1 = _clients r2 ->
  dispatch msg r1 =
  {| final := r1; trace := trace (dispatch msg r2); result := result (dispatch msg r2) |}.
Proof.
  intros Hj Hc. destruct (Frame msg) as [ f | ] eqn:Hf.
  - destruct (String.eqb_spec (ftype f) "r") as [ Ht | Ht ].
    + rewrite !(dispatch_routed msg f _ Hf Ht).
      rewrite (recipient_lookup (faddr f) r1 r2 Hj Hc).
      destruct (recipient (faddr f) r2) as [ [ r | ] | e ]; try reflexivity.
      destruct (truth r); [ | reflexivity ].
      rewrite !guard_route_run. reflexivity.
    + unfold dispatch. rewrite Hf.
      apply String.eqb_neq in Ht. rewrite Ht.
      now destruct (String.eqb (ftype f) "s").
  - unfold dispatch. rewrite Hf. reflexivity.
Qed.

Lemma recv_run msg self :
  recv msg self =
  {| final := logged msg self;
     trace := trace (dispatch msg self);
     result := result (dispatch msg self) |}.
Proof.
  rewrite recv_dispatch. unfold mbind, Method_bind.
  rewrite log_add_run. cbn [final trace result].
  assert (Hj : _jacks (logged msg self) = _jacks self)
    by (unfold logged; now destruct (logging self)).
  assert (Hc : _clients (logged msg self) = _clients self)
    by (unfold logged; now destruct (logging self)).
  rewrite (dispatch_lookup msg _ self Hj Hc). reflexivity.
Qed.

End RecvFacts.




(** C3: when the frame cannot be parsed, [recv] returns normally and
    delivers to no recipient; it has appended the rendering of the input to
    the log if logging is enabled, and has changed nothing else.  A later
    [recv] on the router it leaves behaves as on the router before: same
    calls, same result. *)
Theorem recv_unparsable {C : Collaborators} (self : Router) (msg : Msg) :
  Frame msg = None ->
  let o := recv msg self in
  result o = Ok tt /\
  deliveries (trace o) = [] /\
  trace o = [EPrint (CouldNotParse msg)] /\
  (logging self = true -> log (final o) = log self ++ [str msg]) /\
  (logging self = false -> log (final o) = log self) /\
  runstate (final o) = runstate self /\
  _jacks (final o) = _jacks self /\
  _clients (final o) = _clients self /\
  logging (final o) = logging self /\
  (forall msg' : Msg,
     result (recv msg' (final o)) = result (recv msg' self) /\
     trace (recv msg' (final o)) = trace (recv msg' self) /\
     final (recv msg' (final o)) = logged msg' (final o)).
Proof.
  intros Hf o. subst o. rewrite recv_run. cbn [final trace result].
  assert (Hd : dispatch msg self =
               {| final := self; trace := [EPrint (CouldNotParse msg)]; result := Ok tt |}).
  { unfold dispatch. now rewrite Hf. }
  rewrite Hd. cbn [final trace result].
  assert (Hj : _jacks (logged msg self) = _jacks self)
    by (unfold logged; now destruct (logging self)).
  assert (Hc : _clients (logged msg self) = _clients self)
    by (unfold logged; now destruct (logging self)).
  repeat split; try assumption.
  - unfold logged. now intros ->.
  - unfold logged. now intros ->.
  - unfold logged. now destruct (logging self).
  - unfold logged. destruct (logging self) eqn:E; simpl; auto.
  - rewrite !recv_run. cbn [result].
    now rewrite (dispatch_lookup msg' _ self Hj Hc).
  - rewrite !recv_run. cbn [trace].
    now rewrite (dispatch_lookup msg' _ self Hj Hc).
  - now rewrite recv_run.
Qed.

Lemma recv_unparsable_witness :
  result (@recv Demo.collab "garbage" Demo.stopped_router) = Ok tt /\
  log (final (@recv Demo.collab "garbage" Demo.stopped_router)) = ["garbage"].
Proof.
  destruct (@recv_unparsable Demo.collab Demo.stopped_router "garbage" eq_refl)
    as (Hres & _ & _ & Hlog & _).
  split; [ exact Hres | exact (Hlog eq_refl) ].
Defined.

(** A routed frame with an empty address on a router with an adapter and
    no client under the empty key: the client lookup finds nothing, the
    adapter lookup raises on its first turn, and the exception leaves [recv]. *)
Lemma recv_empty_address_general {C : Collaborators}
    (self : Router) (msg : Msg) (f : FrameT) :
  Frame msg = Some f ->
  ftype f = "r" ->
  faddr f = VList [] \/ faddr f = VTuple [] ->
  _jacks self <> [] ->
  dict_get (_clients self) (VTuple []) = None ->
  exists e : Exn,
    result (recv msg self) = Raise e /\
    result (client (faddr f) self) = Ok None /\
    result (jack (faddr f) self) = Raise e /\
    deliveries (trace (recv msg self)) = [] /\
    (jack_keys_ok (_jacks self) = true -> e = IndexError).
Proof.
  intros Hf Ht Ha Hne Hc.
  assert (Hcl : result (client (faddr f) self) = Ok None).
  { rewrite client_run. destruct Ha as [ -> | -> ]; cbn [result getslice firstn rtuple List.map];
      now rewrite Hc. }
  assert (Hi : getitem0 (faddr f) = Raise IndexError)
    by (destruct Ha as [ -> | -> ]; reflexivity).
  destruct (_jacks self) as [ | [key j] d ] eqn:Hd; [ contradiction | ].
  assert (Hjk : exists e, result (jack (faddr f) self) = Raise e /\
                          (jack_key_ok key = true -> e = IndexError)).
  { unfold jack. run_method. rewrite Hd. cbn [dict_keys List.map fst jack_loop].
    run_method. destruct (unpack2 key) as [ [t l] | e ] eqn:Hu; simpl.
    - rewrite Hi. simpl. exists IndexError. now split.
    - exists e. split; [ reflexivity | ].
      destruct key as [ | | | | | [ | t [ | l [ | ] ] ] ]; discriminate. }
  destruct Hjk as (e & Hjack & He). exists e.
  assert (Hrec : recipient (faddr f) self = Raise e).
  { unfold recipient. now rewrite Hcl. }
  rewrite recv_run, (dispatch_routed msg f self Hf Ht), Hrec.
  cbn [final trace result]. repeat split; try assumption.
  unfold jack_keys_ok. cbn [dict_keys List.map fst forallb].
  intros H. apply andb_true_iff in H as [H _]. now apply He.
Qed.


Lemma client_keys_ok_no_empty {V} (d : dict V) :
  client_keys_ok d = true -> dict_get d (VTuple []) = None.
Proof.
  unfold client_keys_ok. intros H. apply dict_get_None. intros Hin.
  rewrite forallb_forall in H. specialize (H _ Hin). discriminate H.
Qed.

(** C10: on a router whose registry keys are as the data model has them
    (pairs for adapters, triples for clients) and that has at least one
    adapter, a routed frame whose address is an empty sequence makes [recv]
    raise [IndexError]: the client lookup finds nothing, the adapter lookup
    raises on [addr[0]], outside the [try] of the parse and outside the
    [Guard], and the exception leaves [recv], which has delivered nothing. *)
Theorem recv_empty_address_raises {C : Collaborators}
    (self : Router) (msg : Msg) (f : FrameT) :
  jack_keys_ok (_jacks self) = true ->
  client_keys_ok (_clients self) = true ->
  _jacks self <> [] ->
  Frame msg = Some f ->
  ftype f = "r" ->
  faddr f = VList [] \/ faddr f = VTuple [] ->
  result (recv msg self) = Raise IndexError /\
  result (client (faddr f) self) = Ok None /\
  result (jack (faddr f) self) = Raise IndexError /\
  deliveries (trace (recv msg self)) = [].
Proof.
  intros Hjk Hck Hne Hf Ht Ha.
  destruct (recv_empty_address_general self msg f Hf Ht Ha Hne
              (client_keys_ok_no_empty _ Hck)) as (e & Hres & Hcl & Hjack & Hd & He).
  rewrite (He Hjk) in Hres, Hjack. now repeat split.
Qed.

Lemma recv_empty_address_raises_witness :
  result (@recv Demo.collab "e" Demo.stopped_router) = Raise IndexError.
Proof.
  apply (@recv_empty_address_raises Demo.collab Demo.stopped_router "e" ("r", VList []));
    try reflexivity.
  - discriminate.
  - left. reflexivity.
Defined.

(** ** The run state *)

Section RunstateFacts.

Context {C : Collaborators}.

Lemma keeps_ends_in {A} P (m : Method A) : keeps_runstate m -> ends_in P m.
Proof. intros H self HP. now rewrite H. Qed.

Lemma bind_keeps {A B} (m : Method A) (f : A -> Method B) :
  keeps_runstate m -> (forall a, keeps_runstate (f a)) -> keeps_runstate (m ≫= f).
Proof.
  intros Hm Hf self. unfold mbind, Method_bind.
  destruct (result (m self)) as [ a | e ]; cbn [final].
  - now rewrite Hf, Hm.
  - apply Hm.
Qed.

Lemma bind_ends_in {A B} P (m : Method A) (f : A -> Method B) :
  ends_in P m -> (forall a, ends_in P (f a)) -> ends_in P (m ≫= f).
Proof.
  intros Hm Hf self HP. unfold mbind, Method_bind.
  destruct (result (m self)) as [ a | e ]; cbn [final].
  - apply Hf, Hm, HP.
  - apply Hm, HP.
Qed.

Lemma for_each_keeps {A} (xs : list A) body :
  (forall x, keeps_runstate (body x)) -> keeps_runstate (for_each xs body).
Proof.
  intros Hb. induction xs as [ | x xs IH ]; cbn [for_each].
  - intros self. reflexivity.
  - apply bind_keeps; [ apply Hb | intros _; exact IH ].
Qed.

Lemma attr_keeps {A} (f : Router -> A) : keeps_runstate (attr f).
Proof. intros self. reflexivity. Qed.

Lemma eval_keeps {A} (r : Result A) : keeps_runstate (eval r).
Proof. intros self. reflexivity. Qed.

Lemma emit_keeps e : keeps_runstate (emit e).
Proof. intros self. reflexivity. Qed.

Lemma mret_keeps {A} (a : A) : keeps_runstate (mret a : Method A).
Proof. intros self. reflexivity. Qed.

Lemma on_jack_keeps call i : keeps_runstate (on_jack call i).
Proof.
  unfold on_jack. apply bind_keeps; [ apply attr_keeps | intros d ].
  apply bind_keeps; [ apply eval_keeps | intros j; apply emit_keeps ].
Qed.

Lemma thread_all_keeps : keeps_runstate thread_all.
Proof.
  unfold thread_all. apply bind_keeps; [ apply attr_keeps | intros d ].
  apply for_each_keeps. intros i. apply (on_jack_keeps ERunThreaded).
Qed.

Lemma stop_all_keeps : keeps_runstate stop_all.
Proof.
  unfold stop_all. apply bind_keeps; [ apply attr_keeps | intros d ].
  apply for_each_keeps. intros i. apply (on_jack_keeps EClose).
Qed.

Lemma loadjack_keeps j : keeps_runstate (_loadjack j).
Proof.
  unfold _loadjack. apply bind_keeps; [ apply eval_keeps | intros s ].
  apply bind_keeps; [ apply attr_keeps | intros d ].
  apply bind_keeps; [ intros self; reflexivity | intros _ ].
  apply bind_keeps; [ apply attr_keeps | intros rs ].
  destruct (String.eqb rs "threaded"); [ apply emit_keeps | apply mret_keeps ].
Qed.

Lemma loadclient_keeps c : keeps_runstate (_loadclient c).
Proof.
  unfold _loadclient. apply bind_keeps; [ apply eval_keeps | intros s ].
  apply bind_keeps; [ apply attr_keeps | intros d ].
  intros self. reflexivity.
Qed.

Lemma recv_keeps msg : keeps_runstate (recv msg).
Proof.
  intros self. rewrite recv_run. cbn [final]. unfold logged.
  now destruct (logging self).
Qed.

(** [run(level)] leaves the router in state [level] or, if it raised, in
    the state it had. *)
Lemma run_ends_in (P : string -> Prop) level : P level -> ends_in P (run level).
Proof.
  intros HP. unfold run. apply bind_ends_in.
  - apply keeps_ends_in. destruct (String.eqb level "threaded").
    + apply bind_keeps; [ apply attr_keeps | intros rs ].
      destruct (String.eqb rs "stopped"); [ apply thread_all_keeps | apply mret_keeps ].
    + destruct (String.eqb level "stopped"); [ apply stop_all_keeps | apply mret_keeps ].
  - intros _ self _. exact HP.
Qed.

Lemma exec_ends_in op :
  op_levels_valid op = true ->
  ends_in (fun s => valid_level s = true) (exec op).
Proof.
  destruct op as [ msg | j | c | level ]; cbn [exec op_levels_valid]; intros Hv.
  - apply keeps_ends_in, recv_keeps.
  - apply keeps_ends_in, loadjack_keeps.
  - apply keeps_ends_in, loadclient_keeps.
  - now apply run_ends_in.
Qed.

Lemma Router_init_runstate jacks clients :
  valid_level (runstate (final (Router_init jacks clients))) = true.
Proof.
  unfold Router_init.
  set (P := fun s : string => valid_level s = true).
  assert (Hrest : ends_in P
            (assign (set_jacks []) ;;
             assign (set_clients []) ;;
             _loadjacks jacks ;;
             _loadclients clients ;;
             assign (set_logging true) ;;
             assign (set_log []) ;;
             run "threaded")).
  { apply bind_ends_in; [ intros self H; exact H | intros _ ].
    apply bind_ends_in; [ intros self H; exact H | intros _ ].
    apply bind_ends_in;
      [ apply keeps_ends_in, for_each_keeps, loadjack_keeps | intros _ ].
    apply bind_ends_in;
      [ apply keeps_ends_in, for_each_keeps, loadclient_keeps | intros _ ].
    apply bind_ends_in; [ intros self H; exact H | intros _ ].
    apply bind_ends_in; [ intros self H; exact H | intros _ ].
    apply run_ends_in. reflexivity. }
  exact (Hrest (set_runstate "stopped" blank) eq_refl).
Qed.

End RunstateFacts.

(** C7, the claim as stated fails: [run] stores whatever level it is given,
    so after [run("paused")] the run state is ["paused"]. *)
Lemma runstate_other_value_reachable :
  let self := @exec_all Demo.collab [@OpRun Demo.collab "paused"]
                (final (@Router_init Demo.collab [] [])) in
  runstate self = "paused" /\
  ~ (runstate self = "stopped" \/ runstate self = "threaded").
Proof.
  split; [ reflexivity | ].
  intros [ H | H ]; discriminate H.
Qed.

(** C7, amended: after construction and any sequence of [recv],
    registrations and [run] in which every [run] is given ["stopped"] or
    ["threaded"], the run state is ["stopped"] or ["threaded"]. *)
Theorem runstate_stopped_or_threaded {C : Collaborators}
    (jacks clients : list Endpoint) (ops : list Op) :
  forallb op_levels_valid ops = true ->
  let self := exec_all ops (final (Router_init jacks clients)) in
  runstate self = "stopped" \/ runstate self = "threaded".
Proof.
  intros Hops self.
  assert (H : valid_level (runstate self) = true).
  { subst self. generalize (Router_init_runstate jacks clients).
    generalize (final (Router_init jacks clients)) as r. revert Hops.
    induction ops as [ | op ops IH ]; cbn [forallb exec_all]; intros Hops r Hr.
    - exact Hr.
    - apply andb_true_iff in Hops as [Hop Hops].
      apply (IH Hops). now apply exec_ends_in. }
  unfold valid_level in H. apply orb_true_iff in H as [ H | H ];
    apply String.eqb_eq in H; auto.
Qed.

Lemma runstate_stopped_or_threaded_witness :
  let self := @exec_all Demo.collab
                [@OpRun Demo.collab "stopped"; @OpRegisterAdapter Demo.collab Demo.local_jack;
                 @OpRecv Demo.collab "e"; @OpRun Demo.collab "threaded";
                 @OpRecv Demo.collab "r"]
                (final (@Router_init Demo.collab [Demo.udp9] [Demo.alice])) in
  runstate self = "stopped" \/ runstate self = "threaded".
Proof.
  apply (@runstate_stopped_or_threaded Demo.collab [Demo.udp9] [Demo.alice]).
  reflexivity.
Defined.

(** ** Identity deserialisation *)

Lemma check_required_first_missing (d : gmap string PyVal) :
  check_required required d =
  match first_missing d with
  | Some req => Raise (missing_property req)
  | None => Ok tt
  end.
Proof.
  unfold first_missing. generalize required as reqs.
  induction reqs as [ | req reqs IH ]; simpl; [ reflexivity | ].
  destruct (bool_decide (is_Some (d !! req))); simpl; [ exact IH | reflexivity ].
Qed.

Lemma first_missing_None (d : gmap string PyVal) :
  first_missing d = None <->
  is_Some (d !! "name") /\ is_Some (d !! "location") /\ is_Some (d !! "encryptor").
Proof.
  unfold first_missing, required. simpl.
  repeat case_bool_decide; simpl; split; try discriminate; tauto.
Qed.

(** The loop reports the first absent field in the order [name],
    [location], [encryptor]. *)
Lemma deserialize_reports_first_missing (d : gmap string PyVal) :
  (d !! "name" = None ->
   deserialize d = Raise (ValueError "Missing ident property: 'name'")) /\
  (is_Some (d !! "name") -> d !! "location" = None ->
   deserialize d = Raise (ValueError "Missing ident property: 'location'")) /\
  (is_Some (d !! "name") -> is_Some (d !! "location") -> d !! "encryptor" = None ->
   deserialize d = Raise (ValueError "Missing ident property: 'encryptor'")).
Proof.
  unfold deserialize. rewrite check_required_first_missing.
  unfold first_missing, required. simpl.
  repeat split.
  - intros H. rewrite bool_decide_eq_false_2; [ reflexivity | ].
    rewrite H. now intros [? ?].
  - intros Hn H. rewrite (bool_decide_eq_true_2 _ Hn). simpl.
    rewrite bool_decide_eq_false_2; [ reflexivity | ].
    rewrite H. now intros [? ?].
  - intros Hn Hl H. rewrite (bool_decide_eq_true_2 _ Hn), (bool_decide_eq_true_2 _ Hl).
    simpl. rewrite bool_decide_eq_false_2; [ reflexivity | ].
    rewrite H. now intros [? ?].
Qed.

(** With the three fields present and no property called [self], the
    identity is built and holds exactly the properties of the dict. *)
Lemma deserialize_builds_identity (d : gmap string PyVal) :
  is_Some (d !! "name") -> is_Some (d !! "location") -> is_Some (d !! "encryptor") ->
  d !! "self" = None ->
  deserialize d = Ok {| _contents := d; _encryptor := VNone |}.
Proof.
  intros [n Hn] [l Hl] [e He] Hself.
  unfold deserialize. rewrite check_required_first_missing.
  assert (Hfm : first_missing d = None)
    by (apply first_missing_None; rewrite Hn, Hl, He; eauto).
  rewrite Hfm. unfold dict_item. rewrite Hn, Hl, He. simpl.
  unfold Identity_init. simpl.
  rewrite !bool_decide_eq_false_2.
  - simpl. do 2 f_equal. apply map_eq. intros i.
    rewrite lookup_union.
    destruct (decide (i = "name")) as [ -> | ];
      [ | destruct (decide (i = "encryptor")) as [ -> | ];
          [ | destruct (decide (i = "location")) as [ -> | ] ] ];
      simplify_map_eq; reflexivity.
  - intros [x Hx]. simplify_map_eq.
  - intros [x Hx]. simplify_map_eq.
  - intros [x Hx]. simplify_map_eq.
  - intros [x Hx]. simplify_map_eq.
Qed.

(** C9, the failing input: a dict with the three required fields and a
    property called [self].  No field is missing, yet [deserialize] raises:
    the property is passed to [Identity] as the keyword [self], a second
    value for the first parameter of the constructor. *)
Theorem deserialize_rejects_self_property :
  let d := <["self" := VNone]> Demo.calvin in
  is_Some (d !! "name") /\ is_Some (d !! "location") /\ is_Some (d !! "encryptor") /\
  first_missing d = None /\
  deserialize d = Raise TypeError /\
  (exists ident, deserialize Demo.calvin = Ok ident).
Proof.
  cbv zeta.
  split; [ vm_compute; eauto | ].
  split; [ vm_compute; eauto | ].
  split; [ vm_compute; eauto | ].
  split; [ vm_compute; reflexivity | ].
  split; [ vm_compute; reflexivity | ].
  eexists. vm_compute. reflexivity.
Qed.

(** ** The registry invariants are kept by registration *)

Section RegistryInvariants.

Context {C : Collaborators}.

Lemma forallb_keys_set {V} (ok : PyVal -> bool) (d : dict V) k v :
  forallb ok (dict_keys d) = true -> ok k = true ->
  forallb ok (dict_keys (dict_set d k v)) = true.
Proof.
  intros Hd Hk. rewrite dict_keys_set.
  destruct (dict_contains d k); [ exact Hd | ].
  rewrite forallb_app, Hd. simpl. now rewrite Hk.
Qed.

(** Registering an adapter with an interface of at least two components
    keeps the adapter keys pairs and distinct. *)
Lemma loadjack_keeps_registry j t l rest self :
  interface j = VList (t :: l :: rest) \/ interface j = VTuple (t :: l :: rest) ->
  jack_keys_ok (_jacks self) = true ->
  dict_wf (_jacks self) ->
  jack_keys_ok (_jacks (final (_loadjack j self))) = true /\
  dict_wf (_jacks (final (_loadjack j self))) /\
  _clients (final (_loadjack j self)) = _clients self.
Proof.
  intros Hi Hok Hwf.
  assert (Hs : exists s, getslice (interface j) 2 = Ok s /\
                         rtuple s = VTuple [rtuple t; rtuple l]).
  { destruct Hi as [ -> | -> ]; eexists; split; reflexivity. }
  destruct Hs as (s & Hs & Hk). rewrite (loadjack_run j s self Hs), Hk. simpl.
  split; [ | split; [ | reflexivity ] ].
  - now apply forallb_keys_set.
  - now apply dict_set_wf.
Qed.

(** Registering a client with an interface of at least three components
    keeps the client keys triples and distinct. *)
Lemma loadclient_keeps_registry c t l i rest self :
  interface c = VList (t :: l :: i :: rest) \/ interface c = VTuple (t :: l :: i :: rest) ->
  client_keys_ok (_clients self) = true ->
  dict_wf (_clients self) ->
  client_keys_ok (_clients (final (_loadclient c self))) = true /\
  dict_wf (_clients (final (_loadclient c self))) /\
  _jacks (final (_loadclient c self)) = _jacks self.
Proof.
  intros Hi Hok Hwf.
  assert (Hs : exists s, getslice (interface c) 3 = Ok s /\
                         rtuple s = VTuple [rtuple t; rtuple l; rtuple i]).
  { destruct Hi as [ -> | -> ]; eexists; split; reflexivity. }
  destruct Hs as (s & Hs & Hk). rewrite (loadclient_run c s self Hs), Hk. simpl.
  split; [ | split; [ | reflexivity ] ].
  - now apply forallb_keys_set.
  - now apply dict_set_wf.
Qed.

(** [recv] leaves both registries as they are. *)
Lemma recv_keeps_registry msg self :
  _jacks (final (recv msg self)) = _jacks self /\
  _clients (final (recv msg self)) = _clients self.
Proof.
  rewrite recv_run. cbn [final]. unfold logged. now destruct (logging self).
Qed.

End RegistryInvariants.

(** * Further properties of the router *)

Section DispatchFacts.

Context {C : Collaborators}.

Lemma key_of_getslice n addr K :
  key_of n addr = Ok K -> exists s, getslice addr n = Ok s /\ rtuple s = K.
Proof.
  unfold key_of. destruct (getslice addr n) as [ s | e ]; simpl; [ | discriminate ].
  intros [= <-]. now exists s.
Qed.

Lemma recipient_client addr K c self :
  key_of 3 addr = Ok K ->
  dict_get (_clients self) K = Some c ->
  truth c = true ->
  recipient addr self = Ok (Some c).
Proof.
  intros Hk Hc Ht. apply key_of_getslice in Hk as (s & Hs & <-).
  unfold recipient. rewrite client_run, Hs. cbn [result]. now rewrite Hc, Ht.
Qed.

(** Without a client that is true in a boolean context, the recipient is
    what the adapter lookup gives. *)
Lemma recipient_no_client addr K self :
  key_of 3 addr = Ok K ->
  (forall c, dict_get (_clients self) K = Some c -> truth c = false) ->
  recipient addr self = result (jack addr self).
Proof.
  intros Hk Hc. apply key_of_getslice in Hk as (s & Hs & <-).
  unfold recipient. rewrite client_run, Hs. cbn [result].
  destruct (dict_get (_clients self) (rtuple s)) as [ c | ]; [ | reflexivity ].
  now rewrite (Hc c eq_refl).
Qed.

Lemma recipient_jack addr K a0 self :
  key_of 3 addr = Ok K ->
  dict_get (_clients self) K = None ->
  jack_keys_ok (_jacks self) = true ->
  getitem0 addr = Ok a0 ->
  recipient addr self = Ok (option_map snd (first_of_type a0 (_jacks self))).
Proof.
  intros Hk Hc Hok Ha. apply key_of_getslice in Hk as (s & Hs & <-).
  unfold recipient. rewrite client_run, Hs. cbn [result]. rewrite Hc.
  now rewrite (jack_run addr a0 self Ha Hok).
Qed.

(** Whatever the frame, the dispatch calls [route] at most once and never
    starts or closes an adapter. *)
Lemma dispatch_trace_shape msg self :
  length (deliveries (trace (dispatch msg self))) <= 1 /\
  starts (trace (dispatch msg self)) = [] /\
  stops (trace (dispatch msg self)) = [].
Proof.
  destruct (Frame msg) as [ f | ] eqn:Hf.
  - destruct (String.eqb_spec (ftype f) "r") as [ Ht | Ht ].
    + rewrite (dispatch_routed msg f self Hf Ht).
      destruct (recipient (faddr f) self) as [ [ r | ] | e ]; simpl; auto.
      destruct (truth r); simpl; auto.
      rewrite guard_route_run. simpl. destruct (route_raises r f); simpl; auto.
    + unfold dispatch. rewrite Hf. apply String.eqb_neq in Ht. rewrite Ht.
      destruct (String.eqb (ftype f) "s"); simpl; auto.
  - unfold dispatch. rewrite Hf. simpl. auto.
Qed.

End DispatchFacts.

(** X1: whatever it is given, [recv] leaves the registries, the run state
    and the logging flag as they are; its one effect on the router is the
    log entry, appended if logging is enabled, also when it goes on to
    raise.  It calls [route] at most once, and never [run_threaded] or
    [close]. *)
Theorem recv_effects {C : Collaborators} (self : Router) (msg : Msg) :
  let o := recv msg self in
  _jacks (final o) = _jacks self /\
  _clients (final o) = _clients self /\
  runstate (final o) = runstate self /\
  logging (final o) = logging self /\
  log (final o) = (if logging self then log self ++ [str msg] else log self) /\
  length (deliveries (trace o)) <= 1 /\
  starts (trace o) = [] /\
  stops (trace o) = [].
Proof.
  cbv zeta. rewrite recv_run. cbn [final trace].
  destruct (dispatch_trace_shape msg self) as (Hd & Hs & Hc).
  unfold logged. destruct (logging self) eqn:E; simpl; rewrite ?E; repeat split; auto.
Qed.

(** X2: a frame whose kind is not ["r"] is delivered to nobody, whatever
    the registries hold: [recv] returns normally, a frame of kind ["s"] is
    reported as received directly, and a frame of any other kind is dropped
    without a word. *)
Theorem recv_not_routed {C : Collaborators} (self : Router) (msg : Msg) (f : FrameT) :
  Frame msg = Some f ->
  ftype f <> "r" ->
  let o := recv msg self in
  result o = Ok tt /\
  deliveries (trace o) = [] /\
  (ftype f = "s" -> trace o = [EPrint (ReceivedDirectly (faddr f))]) /\
  (ftype f <> "s" -> trace o = []).
Proof.
  intros Hf Ht. cbv zeta. rewrite recv_run. cbn [trace result].
  unfold dispatch. rewrite Hf. apply String.eqb_neq in Ht. rewrite Ht.
  destruct (String.eqb_spec (ftype f) "s") as [ Hs | Hs ]; simpl; repeat split;
    auto; try discriminate; contradiction.
Qed.

Lemma recv_not_routed_witness :
  result (@recv Demo.collab "s" Demo.stopped_router) = Ok tt /\
  deliveries (trace (@recv Demo.collab "s" Demo.stopped_router)) = [].
Proof.
  destruct (@recv_not_routed Demo.collab Demo.stopped_router "s" ("s", Demo.demo_addr)
              eq_refl) as (Hres & Hd & _).
  - discriminate.
  - split; [ exact Hres | exact Hd ].
Defined.

(** X3: a routed frame for which no client is registered under its client
    key and no adapter under its transport type is dropped: [recv] returns
    normally, calls no recipient, and reports that it could not deliver. *)
Theorem recv_undeliverable {C : Collaborators}
    (self : Router) (msg : Msg) (f : FrameT) (K a0 : PyVal) :
  jack_keys_ok (_jacks self) = true ->
  Frame msg = Some f ->
  ftype f = "r" ->
  key_of 3 (faddr f) = Ok K ->
  getitem0 (faddr f) = Ok a0 ->
  dict_get (_clients self) K = None ->
  (forall l j, ~ In (VTuple [a0; l], j) (_jacks self)) ->
  let o := recv msg self in
  result o = Ok tt /\
  trace o = [EPrint (CouldNotDeliver (faddr f))] /\
  deliveries (trace o) = [].
Proof.
  intros Hok Hf Ht Hk Ha Hc Hnone. cbv zeta.
  rewrite recv_run, (dispatch_routed msg f self Hf Ht).
  rewrite (recipient_jack _ K a0 self Hk Hc Hok Ha).
  pose proof (first_of_type_spec a0 (_jacks self) Hok) as H.
  destruct (first_of_type a0 (_jacks self)) as [ [key v] | ].
  - destruct H as (l & -> & Hin). exfalso. exact (Hnone l v Hin).
  - simpl. repeat split.
Qed.

Lemma recv_undeliverable_witness :
  trace (@recv Demo.collab "r" (set_clients [] (set_jacks
           [(VTuple [VStr "udp"; VStr "9.9.9.9"], Demo.udp9)] Demo.stopped_router)))
    = [EPrint (CouldNotDeliver Demo.demo_addr)].
Proof.
  apply (@recv_undeliverable Demo.collab
           (set_clients [] (set_jacks
              [(VTuple [VStr "udp"; VStr "9.9.9.9"], Demo.udp9)] Demo.stopped_router))
           "r" ("r", Demo.demo_addr)
           (VTuple [VStr "local"; VNone; VStr "alice"]) (VStr "local"));
    try reflexivity.
  intros l j [ H | [] ]. discriminate H.
Defined.

(** X4: a routed frame that no client takes, because none is registered
    under its client key or the one registered is false in a boolean context,
    and for whose transport type adapters are registered, all of them true in
    a boolean context, is handed to an adapter registered under that
    transport type, once, whatever the location it is registered under;
    [recv] returns normally. *)
Theorem recv_adapter_fallback {C : Collaborators}
    (self : Router) (msg : Msg) (f : FrameT) (K a0 : PyVal) :
  jack_keys_ok (_jacks self) = true ->
  Frame msg = Some f ->
  ftype f = "r" ->
  key_of 3 (faddr f) = Ok K ->
  getitem0 (faddr f) = Ok a0 ->
  (forall c, dict_get (_clients self) K = Some c -> truth c = false) ->
  (exists l j, In (VTuple [a0; l], j) (_jacks self)) ->
  (forall l j, In (VTuple [a0; l], j) (_jacks self) -> truth j = true) ->
  let o := recv msg self in
  result o = Ok tt /\
  exists l j, In (VTuple [a0; l], j) (_jacks self) /\ deliveries (trace o) = [(j, f)].
Proof.
  intros Hok Hf Ht Hk Ha Hc (l0 & j0 & Hin0) Htrue. cbv zeta.
  rewrite recv_run, (dispatch_routed msg f self Hf Ht).
  rewrite (recipient_no_client _ K self Hk Hc), (jack_run _ a0 self Ha Hok).
  cbn [result].
  pose proof (first_of_type_spec a0 (_jacks self) Hok) as H.
  destruct (first_of_type a0 (_jacks self)) as [ [key v] | ].
  - destruct H as (l & -> & Hin). simpl. rewrite (Htrue l v Hin), guard_route_run.
    cbn [trace result].
    split; [ reflexivity | ]. exists l, v. split; [ exact Hin | ].
    simpl. now destruct (route_raises v f).
  - exfalso. exact (H l0 j0 Hin0).
Qed.

Lemma recv_adapter_fallback_witness :
  exists l j,
    In (VTuple [VStr "local"; l], j) (_jacks Demo.quiet_client_router) /\
    deliveries (trace (@recv Demo.collab "r" Demo.quiet_client_router))
      = [(j, ("r", Demo.demo_addr))].
Proof.
  apply (@recv_adapter_fallback Demo.collab Demo.quiet_client_router
           "r" ("r", Demo.demo_addr)
           (VTuple [VStr "local"; VNone; VStr "alice"]) (VStr "local"));
    try reflexivity.
  - intros c [= <-]. reflexivity.
  - exists VNone, Demo.local_jack. left. reflexivity.
  - intros l j [ [= <- <-] | [] ]. reflexivity.
Defined.

(** X21: [recv] hands a frame only to a recipient that is true in a
    boolean context, and only a frame of kind ["r"]: an endpoint that is
    false in a boolean context is never routed to, whether it is registered
    as a client or as an adapter. *)
Theorem recv_delivers_to_true_recipient {C : Collaborators}
    (self : Router) (msg : Msg) (r : Endpoint) (f : FrameT) :
  In (r, f) (deliveries (trace (recv msg self))) ->
  truth r = true /\ Frame msg = Some f /\ ftype f = "r".
Proof.
  rewrite recv_run. cbn [trace].
  destruct (Frame msg) as [ f' | ] eqn:Hf.
  - destruct (String.eqb_spec (ftype f') "r") as [ Ht | Ht ].
    + rewrite (dispatch_routed msg f' self Hf Ht).
      destruct (recipient (faddr f') self) as [ [ r' | ] | e ];
        try (simpl; intros []).
      destruct (truth r') eqn:Hr; [ | simpl; intros [] ].
      rewrite guard_route_run. cbn [trace deliveries List.flat_map].
      assert (Hnil : deliveries match route_raises r' f' with
                                | Some e => [EPrint (GuardReport e)]
                                | None => []
                                end = [])
        by (now destruct (route_raises r' f')).
      fold (deliveries match route_raises r' f' with
                       | Some e => [EPrint (GuardReport e)]
                       | None => []
                       end).
      rewrite Hnil. intros [ [= <- <-] | [] ]. auto.
    + unfold dispatch. rewrite Hf. apply String.eqb_neq in Ht. rewrite Ht.
      destruct (String.eqb (ftype f') "s"); simpl; intros [].
  - unfold dispatch. rewrite Hf. simpl. intros [].
Qed.

Lemma recv_delivers_to_true_recipient_witness :
  truth Demo.local_jack = true /\
  ~ In (Demo.quiet_alice, ("r", Demo.demo_addr))
       (deliveries (trace (@recv Demo.collab "r" Demo.quiet_client_router))).
Proof.
  split.
  - apply (@recv_delivers_to_true_recipient Demo.collab Demo.quiet_client_router "r"
             Demo.local_jack ("r", Demo.demo_addr)).
    left. reflexivity.
  - intros H.
    destruct (@recv_delivers_to_true_recipient Demo.collab Demo.quiet_client_router "r"
                Demo.quiet_alice ("r", Demo.demo_addr) H) as [Ht _].
    discriminate Ht.
Defined.

Section LifecycleFacts.

Context {C : Collaborators}.

Lemma bind_ok_run {A B} (m : Method A) (f : A -> Method B) self r t a :
  m self = {| final := r; trace := t; result := Ok a |} ->
  (m ≫= f) self =
  {| final := final (f a r); trace := t ++ trace (f a r); result := result (f a r) |}.
Proof. intros H. unfold mbind, Method_bind. now rewrite H. Qed.

Lemma bind_raise_run {A B} (m : Method A) (f : A -> Method B) self r t e :
  m self = {| final := r; trace := t; result := Raise e |} ->
  (m ≫= f) self = {| final := r; trace := t; result := Raise e |}.
Proof. intros H. unfold mbind, Method_bind. now rewrite H. Qed.

Lemma assign_run (f : Router -> Router) self :
  assign f self = {| final := f self; trace := []; result := Ok tt |}.
Proof. reflexivity. Qed.

Lemma outcome_eta {A} (o : Outcome A) :
  o = {| final := final o; trace := trace o; result := result o |}.
Proof. now destruct o. Qed.

Lemma dict_get_key_In {V} (d : dict V) k :
  In k (dict_keys d) -> exists v, dict_get d k = Some v.
Proof.
  intros Hin. destruct (dict_get d k) as [ v | ] eqn:E; [ now exists v | ].
  apply dict_get_None in E. contradiction.
Qed.

(** The loops of [thread_all] and [stop_all] run to their end on any
    registry: a key of the dict is in the dict. *)
Lemma for_each_on_jack_ok call keys self :
  (forall k, In k keys -> In k (dict_keys (_jacks self))) ->
  final (for_each keys (on_jack call) self) = self /\
  result (for_each keys (on_jack call) self) = Ok tt.
Proof.
  induction keys as [ | k keys IH ]; intros Hin; [ split; reflexivity | ].
  destruct (dict_get_key_In (_jacks self) k (Hin k (or_introl eq_refl))) as [v Hv].
  cbn [for_each].
  rewrite (bind_ok_run _ _ self _ _ _ (on_jack_run call k v self Hv)).
  cbn [final result]. apply IH. intros k' Hk'. apply Hin. now right.
Qed.

Lemma thread_all_ok self :
  final (thread_all self) = self /\ result (thread_all self) = Ok tt.
Proof.
  unfold thread_all.
  change (fun i => d ← attr _jacks; j ← eval (dict_getitem d i); emit (ERunThreaded j))
    with (on_jack ERunThreaded).
  unfold mbind, Method_bind, attr. cbn [final trace result].
  apply for_each_on_jack_ok. auto.
Qed.

Lemma stop_all_ok self :
  final (stop_all self) = self /\ result (stop_all self) = Ok tt.
Proof.
  unfold stop_all.
  change (fun i => d ← attr _jacks; j ← eval (dict_getitem d i); emit (EClose j))
    with (on_jack EClose).
  unfold mbind, Method_bind, attr. cbn [final trace result].
  apply for_each_on_jack_ok. auto.
Qed.

(** [run] always returns, in the state it was asked for. *)
Lemma run_final level self :
  final (run level self) = set_runstate level self /\ result (run level self) = Ok tt.
Proof.
  unfold run.
  destruct (String.eqb level "threaded").
  - unfold mbind, Method_bind, attr, assign. cbn [final trace result].
    destruct (String.eqb (runstate self) "stopped").
    + destruct (thread_all_ok self) as [-> ->]. split; reflexivity.
    + split; reflexivity.
  - destruct (String.eqb level "stopped").
    + unfold mbind, Method_bind, assign.
      destruct (stop_all_ok self) as [-> ->]. split; reflexivity.
    + split; reflexivity.
Qed.

Lemma run_threaded_not_stopped self :
  runstate self <> "stopped" ->
  run "threaded" self =
  {| final := set_runstate "threaded" self; trace := []; result := Ok tt |}.
Proof.
  intros Hs. unfold run.
  change ("threaded" =? "threaded")%string with true. cbv beta iota.
  unfold mbind, Method_bind, attr, assign. cbn [final trace result].
  apply String.eqb_neq in Hs. rewrite Hs. reflexivity.
Qed.

Lemma run_other_level level self :
  level <> "threaded" -> level <> "stopped" ->
  run level self = {| final := set_runstate level self; trace := []; result := Ok tt |}.
Proof.
  intros Ht Hs. unfold run.
  apply String.eqb_neq in Ht. apply String.eqb_neq in Hs. rewrite Ht, Hs.
  reflexivity.
Qed.

Lemma loadjack_unsliceable j self :
  sliceable (interface j) = false ->
  _loadjack j self = {| final := self; trace := []; result := Raise TypeError |}.
Proof.
  intros H. unfold _loadjack. run_method.
  destruct (interface j); try discriminate H; reflexivity.
Qed.

Lemma loadclient_unsliceable c self :
  sliceable (interface c) = false ->
  _loadclient c self = {| final := self; trace := []; result := Raise TypeError |}.
Proof.
  intros H. unfold _loadclient. run_method.
  destruct (interface c); try discriminate H; reflexivity.
Qed.

Lemma sliceable_getslice v n : sliceable v = true -> exists s, getslice v n = Ok s.
Proof. destruct v; try discriminate; intros _; eexists; reflexivity. Qed.

Lemma loadjack_final j self :
  sliceable (interface j) = true ->
  _loadjack j self =
  {| final := set_jacks (registry_of 2 [j] (_jacks self)) self;
     trace := if String.eqb (runstate self) "threaded" then [ERunThreaded j] else [];
     result := Ok tt |}.
Proof.
  intros H. destruct (sliceable_getslice _ 2 H) as [s Hs].
  rewrite (loadjack_run j s self Hs). unfold registry_of, key_of. simpl.
  now rewrite Hs.
Qed.

Lemma loadclient_final c self :
  sliceable (interface c) = true ->
  _loadclient c self =
  {| final := set_clients (registry_of 3 [c] (_clients self)) self;
     trace := []; result := Ok tt |}.
Proof.
  intros H. destruct (sliceable_getslice _ 3 H) as [s Hs].
  rewrite (loadclient_run c s self Hs). unfold registry_of, key_of. simpl.
  now rewrite Hs.
Qed.

(** A list of endpoints with sliceable interfaces is registered to its end. *)
Lemma loadjacks_run jacks self :
  forallb (fun j => sliceable (interface j)) jacks = true ->
  final (_loadjacks jacks self) = set_jacks (registry_of 2 jacks (_jacks self)) self /\
  result (_loadjacks jacks self) = Ok tt /\
  trace (_loadjacks jacks self) =
    (if String.eqb (runstate self) "threaded" then List.map ERunThreaded jacks else []).
Proof.
  unfold _loadjacks. revert self.
  induction jacks as [ | j jacks IH ]; intros self Hs.
  - destruct self. simpl. now destruct (String.eqb _ _).
  - cbn [forallb] in Hs. apply andb_true_iff in Hs as [Hj Hs].
    cbn [for_each]. rewrite (bind_ok_run _ _ self _ _ _ (loadjack_final j self Hj)).
    cbn [final trace result].
    destruct (IH (set_jacks (registry_of 2 [j] (_jacks self)) self) Hs) as (-> & -> & ->).
    cbn [runstate set_jacks]. repeat split.
    now destruct (String.eqb (runstate self) "threaded").
Qed.

Lemma loadclients_run clients self :
  forallb (fun c => sliceable (interface c)) clients = true ->
  _loadclients clients self =
  {| final := set_clients (registry_of 3 clients (_clients self)) self;
     trace := []; result := Ok tt |}.
Proof.
  unfold _loadclients. revert self.
  induction clients as [ | c clients IH ]; intros self Hs.
  - destruct self. reflexivity.
  - cbn [forallb] in Hs. apply andb_true_iff in Hs as [Hc Hs].
    cbn [for_each]. rewrite (bind_ok_run _ _ self _ _ _ (loadclient_final c self Hc)).
    rewrite (IH _ Hs). reflexivity.
Qed.

(** Registration stops at the first endpoint whose interface cannot be
    sliced. *)
Lemma for_each_stops (load : Endpoint -> Method unit) good bad rest self :
  (forall e r, In e good -> result (load e r) = Ok tt) ->
  (forall r, load bad r = {| final := r; trace := []; result := Raise TypeError |}) ->
  let o := for_each (good ++ bad :: rest) load self in
  final o = final (for_each good load self) /\
  trace o = trace (for_each good load self) /\
  result o = Raise TypeError.
Proof.
  intros Hgood Hbad. revert self.
  induction good as [ | g good IH ]; intros self; cbv zeta.
  - cbn [app for_each]. rewrite (bind_raise_run _ _ self _ _ _ (Hbad self)).
    repeat split.
  - cbn [app for_each].
    assert (Hg : load g self = {| final := final (load g self);
                                  trace := trace (load g self); result := Ok tt |}).
    { rewrite <- (Hgood g self (or_introl eq_refl)). apply outcome_eta. }
    rewrite !(bind_ok_run _ _ self _ _ _ Hg). cbn [final trace result].
    destruct (IH (fun e r H => Hgood e r (or_intror H)) (final (load g self)))
      as (-> & -> & ->).
    repeat split.
Qed.

Lemma registry_of_wf n es (d : dict Endpoint) : dict_wf d -> dict_wf (registry_of n es d).
Proof.
  unfold registry_of. revert d.
  induction es as [ | e es IH ]; intros d Hd; [ exact Hd | ].
  cbn [List.fold_left]. apply IH.
  destruct (key_of n (interface e)); [ now apply dict_set_wf | exact Hd ].
Qed.

Lemma dict_wf_nil {V} : dict_wf ([] : dict V).
Proof. apply NoDup_nil. exact I. Qed.

(** Construction from endpoints with sliceable interfaces. *)
Lemma Router_init_run jacks clients :
  forallb (fun j => sliceable (interface j)) jacks = true ->
  forallb (fun c => sliceable (interface c)) clients = true ->
  Router_init jacks clients =
  {| final := {| runstate := "threaded";
                 _jacks := registry_of 2 jacks [];
                 _clients := registry_of 3 clients [];
                 logging := true;
                 log := [] |};
     trace := List.map ERunThreaded (dict_values (registry_of 2 jacks []));
     result := Ok tt |}.
Proof.
  intros Hj Hc. unfold Router_init.
  rewrite (bind_ok_run _ _ _ _ _ _ (assign_run _ _)).
  rewrite (bind_ok_run _ _ _ _ _ _ (assign_run _ _)).
  rewrite (bind_ok_run _ _ _ _ _ _ (assign_run _ _)).
  set (r0 := set_clients [] (set_jacks [] (set_runstate "stopped" blank))).
  destruct (loadjacks_run jacks r0 Hj) as (Hf & Hr & Ht).
  assert (Hlj : _loadjacks jacks r0 =
                {| final := set_jacks (registry_of 2 jacks []) r0; trace := [];
                   result := Ok tt |}).
  { rewrite (outcome_eta (_loadjacks jacks r0)), Hf, Hr, Ht. reflexivity. }
  rewrite (bind_ok_run _ _ r0 _ _ _ Hlj).
  rewrite (bind_ok_run _ _ _ _ _ _ (loadclients_run clients _ Hc)).
  rewrite (bind_ok_run _ _ _ _ _ _ (assign_run _ _)).
  rewrite (bind_ok_run _ _ _ _ _ _ (assign_run _ _)).
  rewrite run_threaded_stopped;
    [ reflexivity | apply registry_of_wf, dict_wf_nil | reflexivity ].
Qed.

End LifecycleFacts.

Lemma forallb_false_split {A} (p : A -> bool) (l : list A) :
  forallb p l = false ->
  exists good bad rest, l = good ++ bad :: rest /\ forallb p good = true /\ p bad = false.
Proof.
  induction l as [ | x l IH ]; simpl; [ discriminate | ].
  destruct (p x) eqn:E; simpl.
  - intros H. destruct (IH H) as (good & bad & rest & -> & Hg & Hb).
    exists (x :: good), bad, rest. simpl. rewrite E. auto.
  - intros _. exists [], x, l. auto.
Qed.

(** X5: construction from adapters and clients whose interfaces can be
    sliced returns normally with the router in state ["threaded"], logging
    enabled and an empty log.  The registries hold the endpoints under their
    keys, a later endpoint replacing an earlier one with the same key; the
    adapters in the registry, and only they, have been started, once each;
    nothing has been routed or closed.  An adapter registered afterwards is
    started at once. *)
Theorem Router_init_starts_registered {C : Collaborators} (jacks clients : list Endpoint) :
  forallb (fun j => sliceable (interface j)) jacks = true ->
  forallb (fun c => sliceable (interface c)) clients = true ->
  let o := Router_init jacks clients in
  result o = Ok tt /\
  runstate (final o) = "threaded" /\
  logging (final o) = true /\
  log (final o) = [] /\
  _jacks (final o) = registry_of 2 jacks [] /\
  _clients (final o) = registry_of 3 clients [] /\
  dict_wf (_jacks (final o)) /\
  starts (trace o) = dict_values (_jacks (final o)) /\
  deliveries (trace o) = [] /\
  stops (trace o) = [] /\
  (forall j, sliceable (interface j) = true ->
             trace (_loadjack j (final o)) = [ERunThreaded j]).
Proof.
  intros Hj Hc. cbv zeta. rewrite (Router_init_run jacks clients Hj Hc).
  cbn [final trace result runstate logging log _jacks _clients].
  repeat split.
  - apply registry_of_wf, dict_wf_nil.
  - apply starts_map_run.
  - induction (dict_values (registry_of 2 jacks [])); simpl; auto.
  - induction (dict_values (registry_of 2 jacks [])); simpl; auto.
  - intros j Hs. now rewrite (loadjack_final j _ Hs).
Qed.

Lemma Router_init_starts_registered_witness :
  starts (trace (@Router_init Demo.collab [Demo.udp9; Demo.udp8; Demo.udp9b] [Demo.alice]))
    = [Demo.udp9b; Demo.udp8].
Proof.
  apply (@Router_init_starts_registered Demo.collab
           [Demo.udp9; Demo.udp8; Demo.udp9b] [Demo.alice]); reflexivity.
Defined.

(** X6: when the interface of some adapter or client cannot be sliced,
    construction raises [TypeError]; no adapter has been started by then, and
    the router is left in state ["stopped"]. *)
Theorem Router_init_fails_before_start {C : Collaborators} (jacks clients : list Endpoint) :
  forallb (fun j => sliceable (interface j)) jacks &&
  forallb (fun c => sliceable (interface c)) clients = false ->
  let o := Router_init jacks clients in
  result o = Raise TypeError /\
  trace o = [] /\
  runstate (final o) = "stopped".
Proof.
  intros H. cbv zeta. unfold Router_init.
  rewrite (bind_ok_run _ _ _ _ _ _ (assign_run _ _)).
  rewrite (bind_ok_run _ _ _ _ _ _ (assign_run _ _)).
  rewrite (bind_ok_run _ _ _ _ _ _ (assign_run _ _)).
  set (r0 := set_clients [] (set_jacks [] (set_runstate "stopped" blank))).
  cbn [final trace result app].
  destruct (forallb (fun j => sliceable (interface j)) jacks) eqn:Hj.
  - simpl in H.
    destruct (loadjacks_run jacks r0 Hj) as (Hf & Hr & Ht).
    assert (Hlj : _loadjacks jacks r0 =
                  {| final := set_jacks (registry_of 2 jacks []) r0; trace := [];
                     result := Ok tt |}).
    { rewrite (outcome_eta (_loadjacks jacks r0)), Hf, Hr, Ht. reflexivity. }
    rewrite (bind_ok_run _ _ r0 _ _ _ Hlj). cbn [final trace result app].
    destruct (forallb_false_split _ _ H) as (good & bad & rest & -> & Hg & Hb).
    set (r1 := set_jacks (registry_of 2 jacks []) r0).
    destruct (for_each_stops _loadclient good bad rest r1) as (Hf' & Ht' & Hr').
    { intros e r He. rewrite forallb_forall in Hg. now rewrite (loadclient_final e r (Hg e He)). }
    { intros r. now apply loadclient_unsliceable. }
    fold (_loadclients (good ++ bad :: rest)) in Hf', Ht', Hr'.
    fold (_loadclients good) in Hf', Ht'.
    rewrite (loadclients_run good r1 Hg) in Hf', Ht'. cbn [final trace] in Hf', Ht'.
    assert (Hlc : _loadclients (good ++ bad :: rest) r1 =
                  {| final := set_clients (registry_of 3 good (_clients r1)) r1;
                     trace := []; result := Raise TypeError |}).
    { rewrite (outcome_eta (_loadclients _ r1)), Hf', Ht', Hr'. reflexivity. }
    rewrite (bind_raise_run _ _ r1 _ _ _ Hlc). repeat split.
  - clear H.
    destruct (forallb_false_split _ _ Hj) as (good & bad & rest & -> & Hg & Hb).
    destruct (for_each_stops _loadjack good bad rest r0) as (Hf' & Ht' & Hr').
    { intros e r He. rewrite forallb_forall in Hg. now rewrite (loadjack_final e r (Hg e He)). }
    { intros r. now apply loadjack_unsliceable. }
    fold (_loadjacks (good ++ bad :: rest)) in Hf', Ht', Hr'.
    fold (_loadjacks good) in Hf', Ht'.
    destruct (loadjacks_run good r0 Hg) as (Hf & _ & Ht).
    rewrite Hf in Hf'. rewrite Ht in Ht'.
    assert (Hlj : _loadjacks (good ++ bad :: rest) r0 =
                  {| final := set_jacks (registry_of 2 good (_jacks r0)) r0;
                     trace := []; result := Raise TypeError |}).
    { rewrite (outcome_eta (_loadjacks _ r0)), Hf', Ht', Hr'. reflexivity. }
    rewrite (bind_raise_run _ _ r0 _ _ _ Hlj). repeat split.
Qed.

Lemma Router_init_fails_before_start_witness :
  result (@Router_init Demo.collab [Demo.udp9; Demo.broken_jack; Demo.udp8] [Demo.alice])
    = Raise TypeError /\
  trace (@Router_init Demo.collab [Demo.udp9; Demo.broken_jack; Demo.udp8] [Demo.alice])
    = [].
Proof.
  destruct (@Router_init_fails_before_start Demo.collab
              [Demo.udp9; Demo.broken_jack; Demo.udp8] [Demo.alice] eq_refl)
    as (Hres & Htr & _).
  split; [ exact Hres | exact Htr ].
Defined.

(** X7: registering a list of adapters (or of clients) is not all or
    nothing.  It stops with [TypeError] at the first endpoint whose interface
    cannot be sliced: the endpoints before it are registered (and, for
    adapters on a threaded router, started) as if the list had ended there,
    and the endpoints after it are not looked at. *)
Theorem load_list_stops_at_first_failure {C : Collaborators}
    (good rest : list Endpoint) (bad : Endpoint) (self : Router) :
  forallb (fun e => sliceable (interface e)) good = true ->
  sliceable (interface bad) = false ->
  (result (_loadjacks (good ++ bad :: rest) self) = Raise TypeError /\
   final (_loadjacks (good ++ bad :: rest) self) = final (_loadjacks good self) /\
   trace (_loadjacks (good ++ bad :: rest) self) = trace (_loadjacks good self) /\
   _jacks (final (_loadjacks (good ++ bad :: rest) self))
     = registry_of 2 good (_jacks self)) /\
  (result (_loadclients (good ++ bad :: rest) self) = Raise TypeError /\
   final (_loadclients (good ++ bad :: rest) self) = final (_loadclients good self) /\
   _clients (final (_loadclients (good ++ bad :: rest) self))
     = registry_of 3 good (_clients self)).
Proof.
  intros Hg Hb. split.
  - destruct (for_each_stops _loadjack good bad rest self) as (Hf & Ht & Hr).
    { intros e r He. rewrite forallb_forall in Hg. now rewrite (loadjack_final e r (Hg e He)). }
    { intros r. now apply loadjack_unsliceable. }
    fold (_loadjacks (good ++ bad :: rest)) in Hf, Ht, Hr.
    fold (_loadjacks good) in Hf, Ht.
    repeat split; try assumption.
    rewrite Hf. destruct (loadjacks_run good self Hg) as (-> & _). reflexivity.
  - destruct (for_each_stops _loadclient good bad rest self) as (Hf & Ht & Hr).
    { intros e r He. rewrite forallb_forall in Hg. now rewrite (loadclient_final e r (Hg e He)). }
    { intros r. now apply loadclient_unsliceable. }
    fold (_loadclients (good ++ bad :: rest)) in Hf, Ht, Hr.
    fold (_loadclients good) in Hf, Ht.
    repeat split; try assumption.
    rewrite Hf, (loadclients_run good self Hg). reflexivity.
Qed.

Lemma load_list_stops_at_first_failure_witness :
  result (@_loadjacks Demo.collab [Demo.udp9; Demo.broken_jack; Demo.udp8]
            (set_jacks [] Demo.threaded_router)) = Raise TypeError /\
  dict_values (_jacks (final (@_loadjacks Demo.collab
                                [Demo.udp9; Demo.broken_jack; Demo.udp8]
                                (set_jacks [] Demo.threaded_router))))
    = [Demo.udp9].
Proof.
  destruct (@load_list_stops_at_first_failure Demo.collab [Demo.udp9] [Demo.udp8]
              Demo.broken_jack (set_jacks [] Demo.threaded_router) eq_refl eq_refl)
    as ((Hres & _ & _ & Hreg) & _).
  split; [ exact Hres | ].
  change ([Demo.udp9; Demo.broken_jack; Demo.udp8])
    with ([Demo.udp9] ++ Demo.broken_jack :: [Demo.udp8]).
  rewrite Hreg. reflexivity.
Defined.

(** X8: [run("stopped")] followed by [run("threaded")] restarts the
    router, whatever state it was in: every registered adapter is closed,
    then every registered adapter is started, each once and in iteration
    order, and the router ends in state ["threaded"]. *)
Theorem run_restart {C : Collaborators} (self : Router) :
  dict_wf (_jacks self) ->
  let o1 := run "stopped" self in
  let o2 := run "threaded" (final o1) in
  result o1 = Ok tt /\ result o2 = Ok tt /\
  trace o1 ++ trace o2 =
    List.map EClose (dict_values (_jacks self)) ++
    List.map ERunThreaded (dict_values (_jacks self)) /\
  final o2 = set_runstate "threaded" self.
Proof.
  intros Hwf. cbv zeta. rewrite (run_stopped self Hwf). cbn [final trace result].
  rewrite (run_threaded_stopped (set_runstate "stopped" self) Hwf eq_refl).
  repeat split.
Qed.

Lemma run_restart_witness :
  trace (@run Demo.collab "stopped" Demo.threaded_router) ++
  trace (@run Demo.collab "threaded"
           (final (@run Demo.collab "stopped" Demo.threaded_router)))
  = [EClose Demo.udp9; EClose Demo.udp8; EClose Demo.local_jack;
     ERunThreaded Demo.udp9; ERunThreaded Demo.udp8; ERunThreaded Demo.local_jack].
Proof.
  apply (@run_restart Demo.collab Demo.threaded_router). exact stopped_router_wf.
Defined.

(** X9: [run("threaded")] starts adapters only when the run state is
    exactly ["stopped"].  After [run] with a level that is neither
    ["threaded"] nor ["stopped"], which calls nothing and records that level,
    a following [run("threaded")] still calls nothing, yet leaves the router
    in state ["threaded"]: the adapters of a router that was stopped are not
    started. *)
Theorem run_threaded_only_from_stopped {C : Collaborators} (self : Router) (level : string) :
  level <> "threaded" ->
  level <> "stopped" ->
  let o1 := run level self in
  let o2 := run "threaded" (final o1) in
  result o1 = Ok tt /\ trace o1 = [] /\ runstate (final o1) = level /\
  result o2 = Ok tt /\ trace o2 = [] /\ runstate (final o2) = "threaded" /\
  _jacks (final o2) = _jacks self.
Proof.
  intros Ht Hs. cbv zeta. rewrite (run_other_level level self Ht Hs).
  cbn [final trace result].
  rewrite (run_threaded_not_stopped (set_runstate level self) Hs).
  repeat split.
Qed.

Lemma run_threaded_only_from_stopped_witness :
  starts (trace (@run Demo.collab "threaded"
                   (final (@run Demo.collab "paused" Demo.stopped_router)))) = [] /\
  runstate (final (@run Demo.collab "threaded"
                     (final (@run Demo.collab "paused" Demo.stopped_router))))
    = "threaded".
Proof.
  destruct (@run_threaded_only_from_stopped Demo.collab Demo.stopped_router "paused")
    as (_ & _ & _ & _ & Htr & Hrs & _); try discriminate.
  split; [ now rewrite Htr | exact Hrs ].
Defined.

Lemma dict_values_set_In {V} (d : dict V) k v x :
  In x (dict_values (dict_set d k v)) -> x = v \/ In x (dict_values d).
Proof.
  unfold dict_values. induction d as [ | [k' v'] d IH ]; simpl.
  - intros [ <- | [] ]. now left.
  - destruct (py_eq k' k); simpl.
    + intros [ <- | H ]; auto.
    + intros [ <- | H ]; auto. destruct (IH H); auto.
Qed.

(** X10: an adapter registered under the key of an adapter already there
    takes its place.  The adapter it replaces is not closed by the
    registration, and it is out of the registry: a later [run("stopped")]
    closes the adapters of the registry, the new one among them, and does not
    reach the replaced one. *)
Theorem loadjack_replaces_without_closing {C : Collaborators}
    (self : Router) (j1 j2 : Endpoint) (K : PyVal) :
  dict_wf (_jacks self) ->
  key_of 2 (interface j1) = Ok K ->
  key_of 2 (interface j2) = Ok K ->
  ~ In j1 (dict_values (_jacks self)) ->
  j1 <> j2 ->
  let r1 := final (_loadjack j1 self) in
  let o2 := _loadjack j2 r1 in
  dict_get (_jacks r1) K = Some j1 /\
  result o2 = Ok tt /\
  stops (trace o2) = [] /\
  _jacks (final o2) = dict_set (_jacks self) K j2 /\
  dict_get (_jacks (final o2)) K = Some j2 /\
  In j2 (stops (trace (run "stopped" (final o2)))) /\
  ~ In j1 (stops (trace (run "stopped" (final o2)))).
Proof.
  intros Hwf H1 H2 Hnew Hne. cbv zeta.
  apply key_of_getslice in H1 as (s1 & Hs1 & <-).
  apply key_of_getslice in H2 as (s2 & Hs2 & HK).
  rewrite (loadjack_run j1 s1 self Hs1). cbn [final].
  rewrite (loadjack_run j2 s2 _ Hs2). cbn [final trace result _jacks set_jacks].
  rewrite HK, dict_set_set, !dict_get_set_eq.
  assert (Hwf2 : dict_wf (_jacks (set_jacks (dict_set (_jacks self) (rtuple s1) j2)
                                    (set_jacks (dict_set (_jacks self) (rtuple s1) j1) self))))
    by (cbn [_jacks set_jacks]; now apply dict_set_wf).
  rewrite (run_stopped _ Hwf2). cbn [trace _jacks set_jacks]. rewrite stops_map_close.
  repeat split.
  - now destruct (String.eqb _ _).
  - pose proof (dict_get_In _ _ _ (dict_get_set_eq (_jacks self) (rtuple s1) j2)) as Hin.
    unfold dict_values. apply in_map_iff. now exists (rtuple s1, j2).
  - intros Hin. apply dict_values_set_In in Hin as [ H | H ]; contradiction.
Qed.

Lemma loadjack_replaces_without_closing_witness :
  let r := final (@_loadjack Demo.collab Demo.udp9b
                    (final (@_loadjack Demo.collab Demo.udp9
                              (set_jacks [] Demo.threaded_router)))) in
  In Demo.udp9b (stops (trace (@run Demo.collab "stopped" r))) /\
  ~ In Demo.udp9 (stops (trace (@run Demo.collab "stopped" r))).
Proof.
  destruct (@loadjack_replaces_without_closing Demo.collab
              (set_jacks [] Demo.threaded_router) Demo.udp9 Demo.udp9b
              (VTuple [VStr "udp"; VStr "9.9.9.9"]))
    as (_ & _ & _ & _ & _ & Hin & Hout).
  - apply dict_wf_nil.
  - reflexivity.
  - reflexivity.
  - intros [].
  - discriminate.
  - split; [ exact Hin | exact Hout ].
Defined.

Section PoisonFacts.

Context {C : Collaborators}.

(** The loop of [Router.jack] passes over pair keys of another transport
    type. *)
Lemma jack_loop_skip keys keys' addr a0 self :
  getitem0 addr = Ok a0 ->
  forallb jack_key_ok keys = true ->
  List.find (has_type a0) keys = None ->
  jack_loop (keys ++ keys') addr self = jack_loop keys' addr self.
Proof.
  intros Ha. induction keys as [ | key keys IH ]; intros Hok Hnone; [ reflexivity | ].
  cbn [forallb] in Hok. apply andb_true_iff in Hok as [Hk Hok].
  destruct key as [ | | | | | [ | t [ | l [ | ] ] ] ]; try discriminate Hk.
  cbn [List.find has_type] in Hnone.
  destruct (py_eq t a0) eqn:E; [ discriminate Hnone | ].
  cbn [app jack_loop]. run_method. rewrite Ha. simpl. rewrite E.
  rewrite (IH Hok Hnone). symmetry. apply outcome_eta.
Qed.

Lemma no_type_find_None (d : dict Endpoint) a0 :
  jack_keys_ok d = true ->
  (forall l j, ~ In (VTuple [a0; l], j) d) ->
  List.find (has_type a0) (dict_keys d) = None.
Proof.
  intros Hok Hnone. rewrite find_dict_keys.
  pose proof (first_of_type_spec a0 d Hok) as H.
  destruct (first_of_type a0 d) as [ [key v] | ]; [ | reflexivity ].
  destruct H as (l & -> & Hin). exfalso. exact (Hnone l v Hin).
Qed.

Lemma bad_key_not_contained (d : dict Endpoint) key :
  jack_keys_ok d = true -> jack_key_ok key = false -> dict_contains d key = false.
Proof.
  intros Hok Hbad. unfold dict_contains.
  destruct (dict_get d key) as [ e | ] eqn:E; [ | reflexivity ].
  apply dict_get_In in E.
  assert (Hin : In key (dict_keys d))
    by (unfold dict_keys; apply in_map_iff; now exists (key, e)).
  unfold jack_keys_ok in Hok. rewrite forallb_forall in Hok.
  rewrite (Hok key Hin) in Hbad. discriminate.
Qed.

End PoisonFacts.

(** X11: registration does not check the number of components of an
    interface.  An adapter whose interface has a single component is
    registered without error, under a one-component key; from then on a
    lookup for a transport type that no adapter has reaches that key and
    raises [ValueError] when it unpacks it, and so does [recv] of a routed
    frame of that transport type that no client takes. *)
Theorem short_interface_poisons_lookup {C : Collaborators}
    (self : Router) (j : Endpoint) (t : PyVal) (msg : Msg) (f : FrameT) (K a0 : PyVal) :
  jack_keys_ok (_jacks self) = true ->
  interface j = VList [t] \/ interface j = VTuple [t] ->
  Frame msg = Some f ->
  ftype f = "r" ->
  key_of 3 (faddr f) = Ok K ->
  getitem0 (faddr f) = Ok a0 ->
  dict_get (_clients self) K = None ->
  (forall l j', ~ In (VTuple [a0; l], j') (_jacks self)) ->
  let r := final (_loadjack j self) in
  result (_loadjack j self) = Ok tt /\
  dict_get (_jacks r) (VTuple [rtuple t]) = Some j /\
  result (jack (faddr f) r) = Raise (ValueError "need more than 1 value to unpack") /\
  result (recv msg r) = Raise (ValueError "need more than 1 value to unpack") /\
  deliveries (trace (recv msg r)) = [].
Proof.
  intros Hok Hi Hf Ht Hk Ha Hc Hnone. cbv zeta.
  assert (Hs : exists s, getslice (interface j) 2 = Ok s /\ rtuple s = VTuple [rtuple t]).
  { destruct Hi as [ -> | -> ]; eexists; split; reflexivity. }
  destruct Hs as (s & Hs & Hkey).
  rewrite (loadjack_run j s self Hs), Hkey. cbn [final result].
  set (r := set_jacks (dict_set (_jacks self) (VTuple [rtuple t]) j) self).
  assert (Hjack : jack (faddr f) r =
                  {| final := r; trace := [];
                     result := Raise (ValueError "need more than 1 value to unpack") |}).
  { unfold jack. run_method. rewrite dict_keys_set.
    rewrite (bad_key_not_contained _ (VTuple [rtuple t]) Hok eq_refl).
    rewrite (jack_loop_skip _ _ _ a0 r Ha Hok (no_type_find_None _ a0 Hok Hnone)).
    reflexivity. }
  split; [ reflexivity | ].
  split; [ apply dict_get_set_eq | ].
  split; [ now rewrite Hjack | ].
  apply key_of_getslice in Hk as (s3 & Hs3 & <-).
  assert (Hrec : recipient (faddr f) r = Raise (ValueError "need more than 1 value to unpack")).
  { unfold recipient. rewrite client_run, Hs3. cbn [result].
    change (_clients r) with (_clients self). rewrite Hc. now rewrite Hjack. }
  rewrite recv_run, (dispatch_routed msg f r Hf Ht), Hrec. split; reflexivity.
Qed.

Lemma short_interface_poisons_lookup_witness :
  let r := set_clients [] (set_jacks
             [(VTuple [VStr "udp"; VStr "9.9.9.9"], Demo.udp9)] Demo.stopped_router) in
  result (@recv Demo.collab "r" (final (@_loadjack Demo.collab Demo.short_jack r)))
    = Raise (ValueError "need more than 1 value to unpack").
Proof.
  apply (@short_interface_poisons_lookup Demo.collab
           (set_clients [] (set_jacks
              [(VTuple [VStr "udp"; VStr "9.9.9.9"], Demo.udp9)] Demo.stopped_router))
           Demo.short_jack (VStr "tcp") "r" ("r", Demo.demo_addr)
           (VTuple [VStr "local"; VNone; VStr "alice"]) (VStr "local"));
    try reflexivity.
  - left. reflexivity.
  - intros l j' [ H | [] ]. discriminate H.
Defined.

(** X12: registering a client touches one key of the client registry and
    nothing else: the lookup of an address with any other client key gives
    what it gave before, the adapter registry and the run state are as they
    were, and no adapter or client is called. *)
Theorem loadclient_other_keys {C : Collaborators}
    (self : Router) (c : Endpoint) (K K' addr : PyVal) :
  key_of 3 (interface c) = Ok K ->
  key_of 3 addr = Ok K' ->
  K' <> K ->
  let o := _loadclient c self in
  result o = Ok tt /\
  trace o = [] /\
  result (client addr (final o)) = result (client addr self) /\
  _jacks (final o) = _jacks self /\
  runstate (final o) = runstate self /\
  logging (final o) = logging self /\
  log (final o) = log self.
Proof.
  intros Hk Hk' Hne. cbv zeta.
  apply key_of_getslice in Hk as (s & Hs & <-).
  apply key_of_getslice in Hk' as (s' & Hs' & <-).
  rewrite (loadclient_run c s self Hs). cbn [final trace result].
  rewrite !client_run, Hs'. cbn [result _clients set_clients].
  rewrite dict_get_set_ne by congruence. repeat split.
Qed.

Lemma loadclient_other_keys_witness :
  result (@client Demo.collab Demo.demo_addr
            (final (@_loadclient Demo.collab Demo.bob Demo.stopped_router)))
    = result (@client Demo.collab Demo.demo_addr Demo.stopped_router).
Proof.
  apply (@loadclient_other_keys Demo.collab Demo.stopped_router Demo.bob
           (VTuple [VStr "local"; VNone; VStr "bob"])
           (VTuple [VStr "local"; VNone; VStr "alice"]) Demo.demo_addr);
    try reflexivity.
  discriminate.
Defined.

Section LogFacts.

Context {C : Collaborators}.

Lemma exec_log op self :
  logging (final (exec op self)) = logging self /\
  log (final (exec op self)) =
    log self ++ (if logging self then received [op] else []).
Proof.
  destruct op as [ msg | j | c | level ]; cbn [exec received List.flat_map app].
  - rewrite recv_run. cbn [final]. unfold logged.
    destruct (logging self) eqn:E; simpl; rewrite ?E, ?app_nil_r; auto.
  - destruct (sliceable (interface j)) eqn:E.
    + rewrite (loadjack_final j self E). simpl.
      destruct (logging self); now rewrite app_nil_r.
    + rewrite (loadjack_unsliceable j self E). simpl.
      destruct (logging self); now rewrite app_nil_r.
  - destruct (sliceable (interface c)) eqn:E.
    + rewrite (loadclient_final c self E). simpl.
      destruct (logging self); now rewrite app_nil_r.
    + rewrite (loadclient_unsliceable c self E). simpl.
      destruct (logging self); now rewrite app_nil_r.
  - destruct (run_final level self) as [-> _]. simpl.
    destruct (logging self); now rewrite app_nil_r.
Qed.

End LogFacts.

(** X13: the log is append-only and records exactly what [recv] was given.
    After any sequence of [recv], registrations and [run], the logging flag
    is as it was and the log is the old log followed, if logging is enabled,
    by the renderings of the received messages in order, one for each [recv],
    whether the message could be parsed, was delivered, or made [recv]
    raise; if logging is disabled the log is unchanged. *)
Theorem log_records_received {C : Collaborators} (ops : list Op) (self : Router) :
  logging (exec_all ops self) = logging self /\
  log (exec_all ops self) = log self ++ (if logging self then received ops else []).
Proof.
  revert self. induction ops as [ | op ops IH ]; intros self.
  - simpl. destruct (logging self); now rewrite app_nil_r.
  - cbn [exec_all]. destruct (IH (final (exec op self))) as [Hl Hg].
    destruct (exec_log op self) as [Hl1 Hg1].
    rewrite Hl, Hg, Hl1, Hg1. split; [ reflexivity | ].
    assert (Hr : received (op :: ops) = received [op] ++ received ops)
      by (unfold received; simpl; now rewrite app_nil_r).
    rewrite Hr.
    destruct (logging self); rewrite <- ?app_assoc; simpl; rewrite ?app_nil_r; reflexivity.
Qed.

(** X14: the canonical form of a value holds no list, and the values that
    [rtuple] returns as they are, are the values that hold no list: the
    canonical forms are the list-free values. *)
Theorem rtuple_list_free :
  (forall a, no_lists (rtuple a) = true) /\
  (forall a, no_lists a = true <-> rtuple a = a).
Proof.
  assert (H1 : forall a, no_lists (rtuple a) = true).
  { induction a as [ | n | s | id | xs IH | xs IH ] using PyVal_nested_ind; simpl;
      try reflexivity; rewrite forallb_forall; intros y Hy;
      apply in_map_iff in Hy as (x & <- & Hx);
      rewrite List.Forall_forall in IH; now apply IH. }
  split; [ exact H1 | ].
  intros a. split; [ | intros <-; apply H1 ].
  induction a as [ | n | s | id | xs IH | xs IH ] using PyVal_nested_ind; simpl;
    try reflexivity; try discriminate.
  intros Hxs. f_equal. rewrite forallb_forall in Hxs.
  rewrite List.Forall_forall in IH.
  rewrite <- (List.map_id xs) at 2. apply List.map_ext_in.
  intros x Hx. apply IH; auto.
Qed.

Lemma rtuple_list_free_witness :
  no_lists (rtuple (VList [VStr "udp"; VList [VStr "h"; VInt 9]])) = true /\
  rtuple (VTuple [VStr "udp"; VTuple [VStr "h"; VInt 9]])
    = VTuple [VStr "udp"; VTuple [VStr "h"; VInt 9]].
Proof.
  destruct rtuple_list_free as (Hfree & Hfix).
  split; [ apply Hfree | apply Hfix; reflexivity ].
Defined.

(** * Further properties of identities *)

Section IdentityFacts.

Context {K : Crypto}.

(** The getter of [encryptor] never changes the properties. *)
Lemma encryptor_contents self : _contents (fst (encryptor self)) = _contents self.
Proof.
  unfold encryptor. destruct (negb (truthy (_encryptor self))); [ | reflexivity ].
  destruct (Identity_getitem self "encryptor") as [ p | e ]; [ | reflexivity ].
  now destruct (make p).
Qed.

Lemma serialize_run self enc :
  snd (encryptor self) = Ok enc ->
  serialize self =
  (Identity_setitem (fst (encryptor self)) "encryptor" (proto enc),
   Ok (<["encryptor" := proto enc]> (_contents self))).
Proof.
  intros H. unfold serialize. destruct (encryptor self) as [self1 r] eqn:E.
  simpl in H. subst r. simpl.
  now rewrite <- (encryptor_contents self), E.
Qed.

End IdentityFacts.

(** X15: when the dict has the three required fields and no property
    called [self], [deserialize] returns an identity that answers for every
    property name what the dict holds under it, the extra properties
    included, and [KeyError] for a name the dict lacks; [name] and [location]
    read the fields of the dict, and no encryptor object has been made yet. *)
Theorem deserialize_keeps_properties (d : gmap string PyVal) :
  is_Some (d !! "name") -> is_Some (d !! "location") -> is_Some (d !! "encryptor") ->
  d !! "self" = None ->
  exists ident,
    deserialize d = Ok ident /\
    (forall i v, d !! i = Some v -> Identity_getitem ident i = Ok v) /\
    (forall i, d !! i = None -> Identity_getitem ident i = Raise KeyError) /\
    name ident = dict_item d "name" /\
    location ident = dict_item d "location" /\
    _encryptor ident = VNone.
Proof.
  intros Hn Hl He Hs. eexists. split.
  - apply (deserialize_builds_identity d Hn Hl He Hs).
  - unfold name, location, Identity_getitem, dict_item. simpl.
    repeat split; intros i; intros; now rewrite ?H.
Qed.

Lemma deserialize_keeps_properties_witness :
  exists ident,
    deserialize Demo.calvin = Ok ident /\
    Identity_getitem ident "comment" = Ok (VStr "Lives dangerously").
Proof.
  assert (Hn : is_Some (Demo.calvin !! "name")) by (vm_compute; eauto).
  assert (Hl : is_Some (Demo.calvin !! "location")) by (vm_compute; eauto).
  assert (He : is_Some (Demo.calvin !! "encryptor")) by (vm_compute; eauto).
  assert (Hs : Demo.calvin !! "self" = None) by (vm_compute; reflexivity).
  destruct (deserialize_keeps_properties Demo.calvin Hn Hl He Hs)
    as (ident & Hd & Hget & _).
  exists ident. split; [ exact Hd | ]. apply Hget. vm_compute. reflexivity.
Defined.

(** X16: the encryptor object is made on first use and kept.  On an
    identity without one, the getter makes it from the [encryptor] property
    and stores it, leaving the properties as they are; after that the getter
    returns the stored object and changes nothing, also after any property,
    [encryptor] included, has been assigned with [ident[i] = v]: such an
    assignment does not reach the stored object. *)
Theorem encryptor_cached {K : Crypto} (self : Identity) (p enc : PyVal) :
  truthy (_encryptor self) = false ->
  _contents self !! "encryptor" = Some p ->
  make p = Ok enc ->
  truthy enc = true ->
  let self1 := fst (encryptor self) in
  snd (encryptor self) = Ok enc /\
  _encryptor self1 = enc /\
  _contents self1 = _contents self /\
  encryptor self1 = (self1, Ok enc) /\
  (forall i v, encryptor (Identity_setitem self1 i v) = (Identity_setitem self1 i v, Ok enc)).
Proof.
  intros Hnone Hp Hmake Htrue. cbv zeta.
  assert (Henc : encryptor self =
                 ({| _contents := _contents self; _encryptor := enc |}, Ok enc)).
  { unfold encryptor, Identity_getitem, dict_item. now rewrite Hnone, Hp, Hmake. }
  rewrite Henc. cbn [fst snd _encryptor _contents].
  repeat split.
  - unfold encryptor. cbn [_encryptor]. now rewrite Htrue.
  - intros i v. unfold encryptor, Identity_setitem. cbn [_encryptor]. now rewrite Htrue.
Qed.

Lemma encryptor_cached_witness :
  let self1 := fst (@encryptor Demo.crypto Demo.joe) in
  @encryptor Demo.crypto (Identity_setitem self1 "encryptor" (VStr "nonsense"))
    = (Identity_setitem self1 "encryptor" (VStr "nonsense"),
       Ok (VTuple [VStr "rotate"; VInt 8])).
Proof.
  apply (@encryptor_cached Demo.crypto Demo.joe (VList [VStr "rotate"; VInt 8])
           (VTuple [VStr "rotate"; VInt 8])); reflexivity.
Defined.



(** X18: [public] keeps the name and the location, puts the public form of
    the encryptor in place of the encryptor, and drops every other property:
    the identity it returns has those three properties and no other, and no
    encryptor object yet.  The properties of the identity it is called on
    are unchanged. *)
Theorem public_keeps_three_properties {K : Crypto} (self : Identity) (enc n l : PyVal) :
  snd (encryptor self) = Ok enc ->
  _contents self !! "name" = Some n ->
  _contents self !! "location" = Some l ->
  exists pub,
    snd (public self) = Ok pub /\
    _contents (fst (public self)) = _contents self /\
    Identity_getitem pub "name" = Ok n /\
    Identity_getitem pub "location" = Ok l /\
    Identity_getitem pub "encryptor" = Ok (encryptor_public enc) /\
    (forall i, i <> "name" -> i <> "location" -> i <> "encryptor" ->
               Identity_getitem pub i = Raise KeyError) /\
    _encryptor pub = VNone.
Proof.
  intros He Hn Hl. unfold public.
  pose proof (encryptor_contents self) as Hc.
  destruct (encryptor self) as [self1 r]. simpl in He, Hc. subst r.
  cbn [fst snd]. unfold name, location, Identity_getitem, dict_item.
  rewrite Hc, Hn, Hl. cbn. eexists. split; [ reflexivity | ].
  cbn [_contents _encryptor]. rewrite (left_id_L ∅ (∪)).
  repeat split; simplify_map_eq; try reflexivity; try assumption.
  intros i H1 H2 H3. now simplify_map_eq.
Qed.

Lemma public_keeps_three_properties_witness :
  exists pub,
    snd (@public Demo.crypto Demo.joe) = Ok pub /\
    Identity_getitem pub "comment" = Raise KeyError /\
    Identity_getitem pub "encryptor" = Ok (VList [VStr "rotate"; VNone]).
Proof.
  destruct (@public_keeps_three_properties Demo.crypto Demo.joe
              (VTuple [VStr "rotate"; VInt 8]) (VStr "joe") VNone)
    as (pub & Hp & _ & _ & _ & He & Hother & _); try reflexivity.
  exists pub. split; [ exact Hp | ]. split; [ | exact He ].
  apply Hother; discriminate.
Defined.

(** X19: [serialize] returns the properties of the identity with the
    prototype of its encryptor under [encryptor], and the identity holds the
    same afterwards.  Given back to [deserialize], that dict yields an
    identity with exactly those properties, provided the identity has a name
    and a location and no property called [self]; if the name has been
    deleted, or the location, [deserialize] refuses the dict naming the
    first of them that is missing, and it never finds the encryptor
    missing. *)
Theorem serialize_deserialize {K : Crypto} (self : Identity) (enc : PyVal) :
  snd (encryptor self) = Ok enc ->
  let d := <["encryptor" := proto enc]> (_contents self) in
  snd (serialize self) = Ok d /\
  _contents (fst (serialize self)) = d /\
  (is_Some (_contents self !! "name") -> is_Some (_contents self !! "location") ->
   _contents self !! "self" = None ->
   deserialize d = Ok {| _contents := d; _encryptor := VNone |}) /\
  (_contents self !! "name" = None ->
   deserialize d = Raise (ValueError "Missing ident property: 'name'")) /\
  (is_Some (_contents self !! "name") -> _contents self !! "location" = None ->
   deserialize d = Raise (ValueError "Missing ident property: 'location'")).
Proof.
  intros He. cbv zeta. rewrite (serialize_run self enc He). cbn [fst snd].
  split; [ reflexivity | ].
  split; [ unfold Identity_setitem; cbn [_contents]; now rewrite encryptor_contents | ].
  destruct (deserialize_reports_first_missing
              (<["encryptor" := proto enc]> (_contents self))) as (Hname & Hloc & _).
  split; [ | split ].
  - intros Hn Hl Hs. apply deserialize_builds_identity; simplify_map_eq; eauto.
  - intros Hn. apply Hname. now simplify_map_eq.
  - intros Hn Hl. apply Hloc; now simplify_map_eq.
Qed.

Lemma serialize_deserialize_witness :
  exists d,
    snd (@serialize Demo.crypto Demo.joe) = Ok d /\
    deserialize d = Ok {| _contents := d; _encryptor := VNone |}.
Proof.
  destruct (@serialize_deserialize Demo.crypto Demo.joe (VTuple [VStr "rotate"; VInt 8])
              eq_refl) as (Hs & _ & Hd & _).
  eexists. split; [ exact Hs | ].
  apply Hd; vm_compute; eauto.
Defined.

Lemma deserialize_self_collision (d : gmap string PyVal) :
  is_Some (d !! "name") -> is_Some (d !! "location") -> is_Some (d !! "encryptor") ->
  is_Some (d !! "self") ->
  deserialize d = Raise TypeError.
Proof.
  intros [n Hn] [l Hl] [e He] Hself.
  unfold deserialize. rewrite check_required_first_missing.
  assert (Hfm : first_missing d = None)
    by (apply first_missing_None; rewrite Hn, Hl, He; eauto).
  rewrite Hfm. unfold dict_item. rewrite Hn, Hl, He. simpl.
  unfold Identity_init. cbn [existsb].
  rewrite bool_decide_eq_true_2; [ reflexivity | ].
  now simplify_map_eq.
Qed.

(** X20: the outcomes of [deserialize].  It raises [ValueError] exactly
    when a required field is missing, and the message names the first
    missing one in the order [name], [location], [encryptor].  With the three
    fields present it raises [TypeError] if the dict has a property called
    [self] and otherwise returns an identity holding the properties of the
    dict.  It raises nothing else: the reads after the check cannot fail. *)
Theorem deserialize_outcomes (d : gmap string PyVal) :
  match first_missing d with
  | Some req =>
      deserialize d = Raise (ValueError ("Missing ident property: '" +:+ req +:+ "'")) /\
      d !! req = None /\
      (req = "name" \/
       req = "location" /\ is_Some (d !! "name") \/
       req = "encryptor" /\ is_Some (d !! "name") /\ is_Some (d !! "location"))
  | None =>
      is_Some (d !! "name") /\ is_Some (d !! "location") /\ is_Some (d !! "encryptor") /\
      deserialize d = (if bool_decide (is_Some (d !! "self"))
                       then Raise TypeError
                       else Ok {| _contents := d; _encryptor := VNone |})
  end.
Proof.
  destruct (first_missing d) as [ req | ] eqn:Hfm.
  - split.
    + unfold deserialize. rewrite check_required_first_missing, Hfm. reflexivity.
    + unfold first_missing, required in Hfm. cbn [List.find] in Hfm.
      repeat case_bool_decide; simpl in Hfm; try discriminate Hfm;
        injection Hfm as <-;
        (split; [ now apply eq_None_not_Some | ]); auto.
  - apply first_missing_None in Hfm as (Hn & Hl & He).
    repeat split; try assumption.
    case_bool_decide as Hs.
    + now apply deserialize_self_collision.
    + apply deserialize_builds_identity; try assumption.
      now apply eq_None_not_Some.
Qed.
